(** * sequelize-dry-run: the interception layer of [src/index.js]

    A shallow embedding of [createDryRun]: the query classifier
    ([shouldPassThrough], [METADATA_QUERIES]), the transcript formatter
    ([formatQueries]), the patched [sequelize.query], [restore], and the two
    entry points [up] and [down].

    JavaScript strings are modelled as [string] (the UTF-8 bytes of the
    text).  Case mapping acts on the ASCII letters only; every keyword the
    classifier looks for is ASCII, and no character outside ASCII lower-cases
    to one of their letters, so the classification agrees with the
    JavaScript one.

    The model follows one executor on one database handle.  Code that is not
    in the module (the real query function, [path], [require], the runner's
    discovery, the migrations) is a parameter; migrations and discovery act
    on the module only by calling [sequelize.query].  The [onMigration]
    callback returns or throws, and may write to the arrays it is handed,
    which are the arrays the returned entries keep as [sql]; it is taken to
    make no query of its own.  The logger, [console] unless the caller
    supplies one, is taken to return from [log]; what would depend on that is
    stated for executors that are not verbose, which never call it. *)

From Stdlib Require Import List Arith Lia Bool.
From Stdlib Require Import Strings.Ascii Strings.String Numbers.DecimalString.
Import ListNotations.

Local Open Scope list_scope.
Local Open Scope string_scope.

(* ================================================================== *)
(** ** JavaScript string primitives used by the module *)

Module Js.

Definition lower_ascii (c : ascii) : ascii :=
  let n := nat_of_ascii c in
  if (Nat.leb 65 n && Nat.leb n 90)%bool then ascii_of_nat (n + 32) else c.

Definition upper_ascii (c : ascii) : ascii :=
  let n := nat_of_ascii c in
  if (Nat.leb 97 n && Nat.leb n 122)%bool then ascii_of_nat (n - 32) else c.

Fixpoint map_string (f : ascii -> ascii) (s : string) : string :=
  match s with
  | EmptyString => EmptyString
  | String c t => String (f c) (map_string f t)
  end.

(** [s.toLowerCase()] and [s.toUpperCase()]. *)
Definition toLowerCase : string -> string := map_string lower_ascii.
Definition toUpperCase : string -> string := map_string upper_ascii.

(** [s.startsWith(p)]. *)
Definition startsWith (s p : string) : bool := String.prefix p s.

(** [s.includes(p)]. *)
Fixpoint includes (s p : string) : bool :=
  String.prefix p s ||
  match s with
  | EmptyString => false
  | String _ t => includes t p
  end.

(** [s.repeat(n)]. *)
Fixpoint repeat_str (s : string) (n : nat) : string :=
  match n with
  | O => EmptyString
  | S k => s ++ repeat_str s k
  end.

(** [arr.join(sep)]. *)
Definition join (sep : string) (arr : list string) : string :=
  String.concat sep arr.

(** Template interpolation of a non-negative integer: [`${n}`]. *)
Definition of_nat (n : nat) : string :=
  NilZero.string_of_uint (Nat.to_uint n).

(** The line feed, ["\n"]. *)
Definition LF : string := String (ascii_of_nat 10) EmptyString.

(** [arr.push(x)]: the array with [x] added at its end. *)
Definition push {A : Type} (arr : list A) (x : A) : list A := app arr [x].

End Js.

(* ================================================================== *)
(** ** The query classifier *)

(** [const METADATA_QUERIES = /^(pragma|show|describe|select)|information_schema/i;]
    The pattern has two top-level alternatives: one of four keywords anchored
    at the start of the input, or [information_schema] anywhere in it. *)
Definition leading_keywords : list string :=
  ["pragma"; "show"; "describe"; "select"].

Definition METADATA_QUERIES_test (s : string) : bool :=
  let folded := Js.toLowerCase s in
  existsb (Js.startsWith folded) leading_keywords
  || Js.includes folded "information_schema".

(** [shouldPassThrough], closed over [tableName]. *)
Definition shouldPassThrough (tableName sql : string) : bool :=
  let lower := Js.toLowerCase sql in
  (Js.startsWith lower "select" && Js.includes lower (Js.toLowerCase tableName))
  || METADATA_QUERIES_test lower.

(** The classifier as the specification words it: pass through a statement
    that begins with an introspection keyword, or whose lower-case form is a
    [select] mentioning the lower-cased tracking table; capture all others. *)
Definition spec_classifier_passes (tableName sql : string) : bool :=
  let lower := Js.toLowerCase sql in
  existsb (Js.startsWith lower) leading_keywords
  || (Js.startsWith lower "select" && Js.includes lower (Js.toLowerCase tableName)).

(* ================================================================== *)
(** ** The transcript formatter *)

Inductive Direction := Up | Down.

(** The values ['up'] and ['down'] of an entry's [direction] field. *)
Definition direction_text (d : Direction) : string :=
  match d with Up => "up" | Down => "down" end.

Definition banner : string := Js.repeat_str "=" 70.

Definition NO_SQL_MARKER : string := "(No SQL generated)" ++ Js.LF.

(** The template [`${i + 1}. ${sql}\n`]. *)
Definition numbered_entry (i : nat) (sql : string) : string :=
  Js.of_nat (i + 1) ++ ". " ++ sql ++ Js.LF.

(** [queries.forEach((sql, i) => output.push(...))], started at index [i]. *)
Fixpoint forEach_push (i : nat) (queries output : list string) : list string :=
  match queries with
  | [] => output
  | sql :: rest => forEach_push (S i) rest (Js.push output (numbered_entry i sql))
  end.

(** The [output] array of [formatQueries] just before it is joined. *)
Definition formatLines (name : string) (direction : string)
    (queries : list string) : list string :=
  let output := [] in
  let output := Js.push output (Js.LF ++ banner) in
  let output := Js.push output
    ("📄 Migration " ++ Js.toUpperCase direction ++ ": " ++ name) in
  let output := Js.push output banner in
  if Nat.eqb (List.length queries) 0
  then Js.push output NO_SQL_MARKER
  else forEach_push 0 queries output.

Definition formatQueries (name : string) (direction : string)
    (queries : list string) : string :=
  Js.join Js.LF (formatLines name direction queries).

(* ================================================================== *)
(** ** Function objects, the heap the module touches, and its effects *)

(** Function objects are compared by identity.  A function the module did
    not create is [Ext id]; [f.bind(obj)] and every evaluation of an arrow
    expression allocate a new object, told apart by an allocation stamp. *)
Inductive ArrowBody :=
| NoopHook      (* [async () => {}] *)
| QueryPatch.   (* the arrow function of [setupQueryPatch] *)

Inductive FnRef :=
| Ext (id : nat)
| Bound (stamp : nat) (target : FnRef)
| Arrow (stamp : nat) (body : ArrowBody).

(** One migration's entry in the value returned by [up] and [down]. *)
Record MigrationResult := mkResult {
  name : string;
  direction : Direction;
  sql : list string;
  output : string }.

(** The [originals] object of [createDryRun]. *)
Record Originals := mkOriginals {
  orig_query : FnRef;
  orig_logMigration : FnRef;
  orig_unlogMigration : FnRef }.

(** The constants a dry-run executor closes over. *)
Record Executor := mkExecutor {
  tableName : string;
  migrationsPath : string;
  verbose : bool;
  originals : Originals }.

(** The [options] argument of [createDryRun]; [None] is an omitted field.
    [opt_sequelize] tells whether the database handle was supplied. *)
Record DryRunOptions := mkOptions {
  opt_sequelize : bool;
  opt_migrationsPath : option string;
  opt_tableName : option string;
  opt_verbose : option bool }.

(** The configuration handed to [new Umzug]. *)
Record UmzugConfig := mkUmzug {
  umzug_glob : string;
  umzug_tableName : string;
  umzug_logging : bool }.

(** The members of [sequelize.constructor.QueryTypes] the patch looks at. *)
Record QueryTypesTable := mkQueryTypes {
  SELECT : string;
  INSERT : string;
  UPDATE : string;
  DELETE : string }.

(** The [options] argument of [sequelize.query]; only [type] is read by the
    patch.  A call without options is one with [type] undefined, [None]. *)
Record QueryOptions := mkQueryOptions { type : option string }.

Section Interception.

(** The real database, what the real [sequelize.query] resolves to, thrown
    values, and statement payloads that are not strings. *)
Context {DB DbResult Exn QueryObject : Type}.

Inductive Payload :=
| PStr (text : string)
| PObj (obj : QueryObject).

(** How a call or an awaited promise ends. *)
Inductive Completion (A : Type) :=
| Returned (a : A)
| Threw (e : Exn).
Arguments Returned {A} a.
Arguments Threw {A} e.

(** What the patched [sequelize.query] resolves to. *)
Inductive QueryValue :=
| FromDatabase (r : DbResult)   (* the value of [originals.query(sql, options)] *)
| EmptyEffect                   (* [[0, 0]] *)
| EmptyResultSet.               (* [[[], {}]] *)

(** Code outside the module (a migration's [up] or [down], the runner's
    discovery) as seen from the module: it returns, throws, or calls
    [sequelize.query] and goes on with what the call settled to. *)
Inductive Prog (A : Type) :=
| Ret (a : A)
| Throw (e : Exn)
| Query (payload : Payload) (options : QueryOptions)
        (k : Completion QueryValue -> Prog A).
Arguments Ret {A} a.
Arguments Throw {A} e.
Arguments Query {A} payload options k.

(** A migration module as [require] returns it. *)
Record MigrationModule := mkModule {
  mod_up : Prog unit;
  mod_down : Prog unit }.

(** Everything the module imports or is handed. *)
Record Host := mkHost {
  real_query : Payload -> QueryOptions -> DB -> Completion DbResult * DB;
  QueryTypes : QueryTypesTable;
  path_isAbsolute : string -> bool;
  path_join : list string -> string;
  process_cwd : string;
  require : string -> Completion MigrationModule;
  umzug_pending : UmzugConfig -> Prog (list string);
  umzug_executed : UmzugConfig -> Prog (list string) }.

(** The mutable state: the database, the three patched slots
    ([sequelize.query] and the two [SequelizeStorage.prototype] hooks), the
    executor's [capturedQueries] array, the allocation counter, and the lines
    written to the logger. *)
Record State := mkState {
  db : DB;
  sequelize_query : FnRef;
  logMigration : FnRef;
  unlogMigration : FnRef;
  capturedQueries : list string;
  next_stamp : nat;
  logged : list string }.

Definition set_db (d : DB) (st : State) : State :=
  mkState d (sequelize_query st) (logMigration st) (unlogMigration st)
          (capturedQueries st) (next_stamp st) (logged st).

Definition set_slots (q l u : FnRef) (n : nat) (st : State) : State :=
  mkState (db st) q l u (capturedQueries st) n (logged st).

Definition set_captured (b : list string) (st : State) : State :=
  mkState (db st) (sequelize_query st) (logMigration st) (unlogMigration st)
          b (next_stamp st) (logged st).

Definition set_logged (l : list string) (st : State) : State :=
  mkState (db st) (sequelize_query st) (logMigration st) (unlogMigration st)
          (capturedQueries st) (next_stamp st) l.

(** Computations that read and write the state and may throw. *)
Definition M (A : Type) : Type := State -> Completion A * State.

Definition ret {A} (a : A) : M A := fun st => (Returned a, st).
Definition throw {A} (e : Exn) : M A := fun st => (Threw e, st).
Definition bind {A B} (m : M A) (f : A -> M B) : M B :=
  fun st => match m st with
            | (Returned a, st1) => f a st1
            | (Threw e, st1) => (Threw e, st1)
            end.
Definition modify (f : State -> State) : M unit :=
  fun st => (Returned tt, f st).
Definition lift {A} (c : Completion A) : M A := fun st => (c, st).

(** [try { body } finally { cleanup }] with a cleanup that cannot throw. *)
Definition try_finally {A} (body : M A) (cleanup : State -> State) : M A :=
  fun st => let (c, st1) := body st in (c, cleanup st1).

Notation "x <- m ;; k" := (bind m (fun x => k))
  (at level 61, m at next level, right associativity).
Notation "m ;;; k" := (bind m (fun _ => k))
  (at level 61, right associativity).

Variable host : Host.

(** [logger.log(line)]. *)
Definition log (line : string) : M unit :=
  modify (fun st => set_logged (Js.push (logged st) line) st).

Definition when (b : bool) (m : M unit) : M unit :=
  if b then m else ret tt.

(** [originals.query(sql, options)]: the real query function, run on the
    real database. *)
Definition originals_query (payload : Payload) (options : QueryOptions)
  : M QueryValue :=
  fun st => match real_query host payload options (db st) with
            | (Returned r, d) => (Returned (FromDatabase r), set_db d st)
            | (Threw e, d) => (Threw e, set_db d st)
            end.

(** [createDryRun(options)], called with an options object whose handle,
    when it is there, has a [query] method. *)
Inductive Created :=
| ConfigError (message : string)
| Ready (x : Executor) (st : State).

Definition createDryRun (options : DryRunOptions) (st : State) : Created :=
  if negb (opt_sequelize options) then ConfigError "sequelize instance is required"
  else match opt_migrationsPath options with
  | None | Some EmptyString => ConfigError "migrationsPath is required"
  | Some path =>
    let originals :=
      mkOriginals (Bound (next_stamp st) (sequelize_query st))
                  (logMigration st) (unlogMigration st) in
    Ready (mkExecutor
             (match opt_tableName options with Some t => t | None => "SequelizeMeta" end)
             path
             (match opt_verbose options with Some v => v | None => false end)
             originals)
          (set_captured []
             (set_slots (sequelize_query st) (logMigration st) (unlogMigration st)
                        (S (next_stamp st)) st))
  end.

Variable x : Executor.

(** [setupStoragePatch]. *)
Definition setupStoragePatch (st : State) : State :=
  set_slots (sequelize_query st)
            (Arrow (next_stamp st) NoopHook)
            (Arrow (S (next_stamp st)) NoopHook)
            (S (S (next_stamp st))) st.

(** The body of the arrow function installed by [setupQueryPatch]. *)
Definition type_is (options : QueryOptions) (t : string) : bool :=
  match type options with
  | Some s => String.eqb s t
  | None => false
  end.

Definition patched_query (payload : Payload) (options : QueryOptions)
  : M QueryValue :=
  match payload with
  | PObj _ => originals_query payload options
  | PStr sql =>
    if shouldPassThrough (tableName x) sql then originals_query payload options
    else
      modify (fun st => set_captured (Js.push (capturedQueries st) sql) st) ;;;
      let QT := QueryTypes host in
      if type_is options (SELECT QT) then originals_query payload options
      else if existsb (type_is options) [INSERT QT; UPDATE QT; DELETE QT]
      then ret EmptyEffect
      else ret EmptyResultSet
  end.

(** [setupQueryPatch]. *)
Definition setupQueryPatch (st : State) : State :=
  set_slots (Arrow (next_stamp st) QueryPatch)
            (logMigration st) (unlogMigration st)
            (S (next_stamp st)) st.

(** [restore]. *)
Definition restore (st : State) : State :=
  set_slots (orig_query (originals x))
            (orig_logMigration (originals x))
            (orig_unlogMigration (originals x))
            (next_stamp st) st.

(** A call [sequelize.query(payload, options)] made by outside code: it runs
    whatever the slot currently holds. *)
Definition call_query (payload : Payload) (options : QueryOptions)
  : M QueryValue :=
  fun st => match sequelize_query st with
            | Arrow _ QueryPatch => patched_query payload options st
            | _ => originals_query payload options st
            end.

(** Running outside code; an [async] callee that throws gives the caller a
    rejected promise, which the caller's continuation receives. *)
Fixpoint run {A} (p : Prog A) : M A :=
  match p with
  | Ret a => ret a
  | Throw e => throw e
  | Query payload options k =>
      fun st => let (c, st1) := call_query payload options st in run (k c) st1
  end.

(** The glob and the storage handed to [new Umzug]. *)
Definition migrationsGlob : string :=
  if path_isAbsolute host (migrationsPath x)
  then path_join host [migrationsPath x; "*.js"]
  else path_join host [process_cwd host; migrationsPath x; "*.js"].

Definition new_Umzug : UmzugConfig :=
  mkUmzug migrationsGlob (tableName x) (verbose x).

(** The path handed to [require] for the migration called [migration]. *)
Definition migrationPath (migration : string) : string :=
  path_join host
    [ if path_isAbsolute host (migrationsPath x)
      then migrationsPath x
      else path_join host [process_cwd host; migrationsPath x];
      migration ].

(** The two bookkeeping statements the entry points add themselves. *)
Definition insert_record (table migration : string) : string :=
  "INSERT INTO `" ++ table ++ "` (`name`) VALUES ('" ++ migration ++ "');".

Definition delete_record (table migration : string) : string :=
  "DELETE FROM `" ++ table ++ "` WHERE `name` = '" ++ migration ++ "';".

(** The caller's [onMigration(name, queries)].  The array it is handed is
    the very array the entry keeps as its [sql], so the callback can write to
    it, and to the arrays it was handed at earlier calls of the same run.  A
    callback is given by what it does at each call: [calls] lists, oldest
    first, the name and the array contents handed at every call so far, the
    present call last; the answer is how the call ends and what those arrays
    hold when it has ended. *)
Definition Callback : Type :=
  list (string * list string) -> Completion unit * list (list string).

(** The entries with the arrays' contents written into their [sql]; entry
    and array go by position. *)
Fixpoint write_back (arrays : list (list string)) (results : list MigrationResult)
    {struct results} : list MigrationResult :=
  match results, arrays with
  | r :: results', a :: arrays' =>
      mkResult (name r) (direction r) a (output r) :: write_back arrays' results'
  | _, _ => results
  end.

(** [if (onMigration) onMigration(name, queries)], with the entries whose
    arrays the callback has been handed; the answer is those entries as the
    call leaves them. *)
Definition call_onMigration (onMigration : option Callback)
    (calls : list (string * list string)) (results : list MigrationResult)
  : M (list MigrationResult) :=
  match onMigration with
  | Some f =>
      match f calls with
      | (Returned _, arrays) => ret (write_back arrays results)
      | (Threw e, _) => throw e
      end
  | None => ret results
  end.

Definition capture (statement : string) : M unit :=
  modify (fun st => set_captured (Js.push (capturedQueries st) statement) st).

Definition captured_length : M nat :=
  fun st => (Returned (List.length (capturedQueries st)), st).

(** [capturedQueries.slice(startIdx)]. *)
Definition captured_slice (startIdx : nat) : M (list string) :=
  fun st => (Returned (skipn startIdx (capturedQueries st)), st).

(** The body of [for (const migration of pending)] in [up].  Beside
    [results] it keeps [calls], what the callback has been handed so far in
    this run. *)
Definition up_migration (onMigration : option Callback)
    (results : list MigrationResult) (calls : list (string * list string))
    (migration : string)
  : M (list MigrationResult * list (string * list string)) :=
  startIdx <- captured_length ;;
  mod_ <- lift (require host (migrationPath migration)) ;;
  run (mod_up mod_) ;;;
  capture (insert_record (tableName x) migration) ;;;
  queries <- captured_slice startIdx ;;
  let output := formatQueries migration "up" queries in
  let results := Js.push results (mkResult migration Up queries output) in
  let calls := Js.push calls (migration, queries) in
  when (verbose x) (log output) ;;;
  results <- call_onMigration onMigration calls results ;;
  ret (results, calls).

Fixpoint up_loop (onMigration : option Callback) (pending : list string)
    (results : list MigrationResult) (calls : list (string * list string))
  : M (list MigrationResult) :=
  match pending with
  | [] => ret results
  | migration :: rest =>
      round <- up_migration onMigration results calls migration ;;
      up_loop onMigration rest (fst round) (snd round)
  end.

(** [pending.forEach((m, i) => logger.log(`  ${i + 1}. ${m.name}`))]. *)
Fixpoint log_pending (i : nat) (pending : list string) : M unit :=
  match pending with
  | [] => ret tt
  | m :: rest => log ("  " ++ Js.of_nat (i + 1) ++ ". " ++ m) ;;; log_pending (S i) rest
  end.

(** [up(opts)], with [onMigration] the field of [opts]. *)
Definition up (onMigration : option Callback) : M (list MigrationResult) :=
  let results := [] in
  try_finally
    (modify setupStoragePatch ;;;
     modify setupQueryPatch ;;;
     pending <- run (umzug_pending host new_Umzug) ;;
     if Nat.eqb (List.length pending) 0 then
       when (verbose x) (log "✓ No pending migrations") ;;;
       ret results
     else
       when (verbose x)
         (log ("Found " ++ Js.of_nat (List.length pending) ++ " pending migration(s):") ;;;
          log_pending 0 pending) ;;;
       results <- up_loop onMigration pending results [] ;;
       when (verbose x)
         (log (Js.LF ++ "✓ Dry run completed — NO database changes made")) ;;;
       ret results)
    restore.

(** [down(opts)]; [None] is JavaScript's [null]. *)
Definition down (onMigration : option Callback) : M (option MigrationResult) :=
  try_finally
    (modify setupStoragePatch ;;;
     modify setupQueryPatch ;;;
     executed <- run (umzug_executed host new_Umzug) ;;
     if Nat.eqb (List.length executed) 0 then
       when (verbose x) (log "✓ No migrations to rollback") ;;;
       ret None
     else
       let lastMigration := nth (List.length executed - 1) executed EmptyString in
       when (verbose x)
         (log ("Last executed migration: " ++ lastMigration ++ Js.LF)) ;;;
       startIdx <- captured_length ;;
       mod_ <- lift (require host (migrationPath lastMigration)) ;;
       run (mod_down mod_) ;;;
       capture (delete_record (tableName x) lastMigration) ;;;
       queries <- captured_slice startIdx ;;
       let output := formatQueries lastMigration "down" queries in
       let result := mkResult lastMigration Down queries output in
       when (verbose x) (log output) ;;;
       written <- call_onMigration onMigration [(lastMigration, queries)] [result] ;;
       when (verbose x)
         (log (Js.LF ++ "✓ Dry run completed — NO database changes made")) ;;;
       ret (hd_error written))
    restore.

(** The state in which both patches are installed, as it is when the runner
    is asked for its migrations. *)
Definition installed (st : State) : State :=
  setupQueryPatch (setupStoragePatch st).

End Interception.

Arguments Returned {Exn A} a.
Arguments Threw {Exn A} e.
Arguments Ret {DbResult Exn QueryObject A} a.
Arguments Throw {DbResult Exn QueryObject A} e.
Arguments Query {DbResult Exn QueryObject A} payload options k.
Arguments PStr {QueryObject} text.
Arguments PObj {QueryObject} obj.

(* ================================================================== *)
(** ** Vocabulary for the properties *)

Section Vocabulary.

Context {DB Exn : Type}.
Variable x : Executor.

(** The buffer only ever grows at its end. *)
Definition extends (st st' : @State DB) : Prop :=
  exists delta, capturedQueries st' = (capturedQueries st ++ delta)%list.

(** What one round of the loop of [up] adds to [results]. *)
Definition up_entry (migration : string) (produced : list string) : MigrationResult :=
  let queries := (produced ++ [insert_record (tableName x) migration])%list in
  mkResult migration Up queries (formatQueries migration "up" queries).

(** What [down] returns for [migration]. *)
Definition down_entry (migration : string) (produced : list string) : MigrationResult :=
  let queries := (produced ++ [delete_record (tableName x) migration])%list in
  mkResult migration Down queries (formatQueries migration "down" queries).

(** The state in which the last migration's [down] procedure is invoked. *)
Definition announced (lastMigration : string) (st1 : @State DB) : State :=
  if verbose x
  then set_logged
         (Js.push (logged st1) ("Last executed migration: " ++ lastMigration ++ Js.LF))
         st1
  else st1.

(** The state one round of [up] or the body of [down] leaves once the
    bookkeeping statement is in the buffer and a verbose executor has logged
    the rendered output. *)
Definition round_end (statement output : string) (st2 : @State DB) : State :=
  let st3 := set_captured (Js.push (capturedQueries st2) statement) st2 in
  if verbose x then set_logged (Js.push (logged st3) output) st3 else st3.

(** The state [down] leaves, before [restore], when it returns its entry. *)
Definition down_end (statement output : string) (st2 : @State DB) : State :=
  let st3 := round_end statement output st2 in
  if verbose x
  then set_logged
         (Js.push (logged st3)
            (Js.LF ++ "✓ Dry run completed — NO database changes made")) st3
  else st3.

(** A callback that writes to none of the arrays it is handed; and one that
    moreover returns. *)
Definition never_writes (cb : option (@Callback Exn)) : Prop :=
  forall f calls, cb = Some f -> snd (f calls) = map snd calls.

Definition only_observes (cb : option (@Callback Exn)) : Prop :=
  forall f calls, cb = Some f -> f calls = (Returned tt, map snd calls).

(** What of an entry no callback can reach: its strings. *)
Definition fixed_fields (r : MigrationResult) : string * Direction * string :=
  (name r, direction r, output r).

(** The same three strings for a migration of [up] and the statements
    captured for it. *)
Definition captured_entry (c : string * list string) : string * Direction * string :=
  (fst c, Up, formatQueries (fst c) "up" (snd c)).

(** The state with [b] in front of what the buffer holds. *)
Definition shift (b : list string) (st : @State DB) : State :=
  set_captured (b ++ capturedQueries st) st.

(** A computation that neither reads nor drops what is already in the
    buffer: with [b] in front it ends the same way, with [b] still in front. *)
Definition Shifts {A} (m : M (Exn := Exn) A) : Prop :=
  forall b (st : @State DB), m (shift b st) = let (c, st') := m st in (c, shift b st').

(** A computation that leaves what [obs] reads of the state as it was. *)
Definition Keeps {T A : Type} (obs : @State DB -> T) (m : M (Exn := Exn) A) : Prop :=
  forall st, obs (snd (m st)) = obs st.

(** The three patched slots, read together. *)
Definition slots (st : @State DB) : FnRef * FnRef * FnRef :=
  (sequelize_query st, logMigration st, unlogMigration st).

End Vocabulary.

Section Suppression.

Context {DB DbResult Exn QueryObject : Type}.
Variable host : @Host DB DbResult Exn QueryObject.
Variable x : Executor.

(** What the patch answers when it does not ask the database. *)
Definition inert_answer (options : QueryOptions) : @QueryValue DbResult :=
  if existsb (type_is options)
       [INSERT (QueryTypes host); UPDATE (QueryTypes host); DELETE (QueryTypes host)]
  then EmptyEffect else EmptyResultSet.

(** A call the patch keeps from the database: a string that is not passed
    through, sent with a type other than SELECT. *)
Definition suppressed (payload : @Payload QueryObject) (options : QueryOptions)
  : bool :=
  match payload with
  | PStr sql =>
      negb (shouldPassThrough (tableName x) sql)
      && negb (type_is options (SELECT (QueryTypes host)))
  | PObj _ => false
  end.

(** Outside code all of whose calls, as it goes on from the inert answers,
    are of that kind; and the texts of those calls in order. *)
Fixpoint only_suppressed {A} (p : @Prog DbResult Exn QueryObject A) : bool :=
  match p with
  | Ret _ => true
  | Throw _ => true
  | Query payload options k =>
      suppressed payload options
      && only_suppressed (k (Returned (inert_answer options)))
  end.

Fixpoint issued {A} (p : @Prog DbResult Exn QueryObject A) : list string :=
  match p with
  | Ret _ => []
  | Throw _ => []
  | Query payload options k =>
      match payload with
      | PStr sql => sql :: issued (k (Returned (inert_answer options)))
      | PObj _ => issued (k (Returned (inert_answer options)))
      end
  end.

End Suppression.

(* ================================================================== *)
(** ** A small host on which the model runs

    The database is the list of statements it has really executed, a query
    resolves to the number of statements executed before it, thrown values
    are messages, and the only non-string payload is a token. *)

Module Demo.

Definition DB : Type := list string.

Definition payload_text (p : @Payload unit) : string :=
  match p with
  | PStr s => s
  | PObj _ => "[object Object]"
  end.

Definition real_query (p : @Payload unit) (o : QueryOptions) (d : DB)
  : @Completion string nat * DB :=
  (Returned (List.length d), Js.push d (payload_text p)).

(** The values of the four members in the sequelize package. *)
Definition QueryTypes : QueryTypesTable :=
  mkQueryTypes "SELECT" "INSERT" "UPDATE" "DELETE".

Definition raw : QueryOptions := mkQueryOptions None.

Definition CREATE_USERS : string :=
  "CREATE TABLE `users` (`id` INTEGER PRIMARY KEY);".

Definition DROP_USERS : string := "DROP TABLE `users`;".

Definition create_users : @MigrationModule nat string unit :=
  mkModule
    (Query (PStr CREATE_USERS) raw (fun _ => Ret tt))
    (Query (PStr DROP_USERS) raw (fun _ => Ret tt)).

Definition broken : @MigrationModule nat string unit :=
  mkModule (Throw "boom") (Throw "boom").

Definition ADD_EMAIL : string :=
  "ALTER TABLE `users` ADD COLUMN `email` VARCHAR(255);".

Definition DROP_EMAIL : string := "ALTER TABLE `users` DROP COLUMN `email`;".

Definition add_email : @MigrationModule nat string unit :=
  mkModule
    (Query (PStr ADD_EMAIL) raw (fun _ => Ret tt))
    (Query (PStr DROP_EMAIL) raw (fun _ => Ret tt)).

Definition require (path : string) : @Completion string MigrationModule :=
  if String.eqb path "/app/migrations/0001-create-users" then Returned create_users
  else if String.eqb path "/app/migrations/0002-broken" then Returned broken
  else if String.eqb path "/app/migrations/0003-add-email" then Returned add_email
  else Threw "Cannot find module".

(** The runner reads the tracking table, then reports the given names. *)
Definition discover (names : list string) (cfg : UmzugConfig)
  : @Prog nat string unit (list string) :=
  Query (PStr ("SELECT `name` FROM `" ++ umzug_tableName cfg ++ "`;"))
        (mkQueryOptions (Some "SELECT"))
        (fun _ => Ret names).

Definition host (pending executed : list string) : @Host DB nat string unit :=
  mkHost real_query QueryTypes
         (fun p => String.prefix "/" p)
         (String.concat "/")
         "/app"
         require
         (discover pending)
         (discover executed).

(** Before [createDryRun]: an empty database and three functions of the
    frameworks in the slots. *)
Definition st0 : @State DB :=
  mkState [] (Ext 0) (Ext 1) (Ext 2) [] 0 [].

Definition options : DryRunOptions :=
  mkOptions true (Some "migrations") None None.

(** The executor and the state [createDryRun options] leaves from [st0]. *)
Definition x : Executor :=
  mkExecutor "SequelizeMeta" "migrations" false
             (mkOriginals (Bound 0 (Ext 0)) (Ext 1) (Ext 2)).

Definition st1 : @State DB :=
  mkState [] (Ext 0) (Ext 1) (Ext 2) [] 1 [].

(** A read through a common table expression, sent with the SELECT type. *)
Definition CTE_READ : string :=
  "WITH recent AS (SELECT id FROM users) SELECT * FROM recent".

(** A statement that writes and names the catalog schema. *)
Definition CATALOG_COPY : string :=
  "CREATE TABLE t AS SELECT * FROM information_schema.tables".

(** A host whose runner cannot reach its storage. *)
Definition offline : @Host DB nat string unit :=
  mkHost real_query QueryTypes
         (fun p => String.prefix "/" p)
         (String.concat "/")
         "/app"
         require
         (fun _ => Throw "connection refused")
         (fun _ => Throw "connection refused").

(** The executor above, made verbose. *)
Definition loud : Executor :=
  mkExecutor "SequelizeMeta" "migrations" true
             (mkOriginals (Bound 0 (Ext 0)) (Ext 1) (Ext 2)).

(** The state an earlier run of the executor has left: its statements are
    still in the buffer. *)
Definition used : @State DB :=
  mkState ["SELECT `name` FROM `SequelizeMeta`;"]
          (Bound 0 (Ext 0)) (Ext 1) (Ext 2)
          [CREATE_USERS; "INSERT INTO `SequelizeMeta` (`name`) VALUES ('0001-create-users');"]
          4 [].

(** The callback [(name, queries) => { queries.pop(); }]: after a call, each
    array handed so far has lost the element it ended with. *)
Definition popper : @Callback string :=
  fun calls => (Returned tt, map (fun c => removelast (snd c)) calls).

(** The callback [(name, queries) => { seen.push(name); }], which reads its
    arguments only. *)
Definition reader : @Callback string :=
  fun calls => (Returned tt, map snd calls).

(** The callback [(name, queries) => { throw "stop"; }]. *)
Definition stopper : @Callback string :=
  fun calls => (Threw "stop", map snd calls).

End Demo.


(** Whether a text is made of ASCII characters only. *)
Fixpoint ascii_only (s : string) : bool :=
  match s with
  | EmptyString => true
  | String c t => (Nat.ltb (nat_of_ascii c) 128 && ascii_only t)%bool
  end.

(** The lines a verbose [up] writes to list the pending migrations,
    numbered from [i + 1]. *)
Definition listing (i : nat) (pending : list string) : list string :=
  map (fun p => "  " ++ Js.of_nat (fst p + 1) ++ ". " ++ snd p)
      (combine (seq i (List.length pending)) pending).



Section Rounds.

Context {DB DbResult Exn QueryObject : Type}.
Variable host : @Host DB DbResult Exn QueryObject.
Variable x : Executor.

(** The state in which the loop of [up] starts: the one the discovery left,
    with the count line and the listing logged by a verbose executor. *)
Definition found (pending : list string) (st1 : @State DB) : State :=
  let count_line :=
    "Found " ++ Js.of_nat (List.length pending) ++ " pending migration(s):" in
  if verbose x
  then set_logged (Js.push (logged st1) count_line ++ listing 0 pending)%list st1
  else st1.

(** The rounds of the loop of [up], one per iteration of its body: for each
    pending migration, in the runner's order, its module is loaded, its up
    procedure runs from the state the round before left, the
    record-as-applied statement goes into the buffer, and what the buffer
    gained while the procedure ran, followed by that statement, is the
    migration's captured statements.  [Rounds pending st captured st'] holds
    when the rounds for [pending] lead from [st] to [st'] with no procedure
    throwing, [captured] pairing each migration with its captured
    statements. *)
Inductive Rounds
  : list string -> @State DB -> list (string * list string) -> @State DB -> Prop :=
| Rounds_done (st : @State DB) : Rounds [] st [] st
| Rounds_round (migration : string) (rest : list string) (st st2 st' : @State DB)
    (md : MigrationModule) (produced : list string)
    (captured : list (string * list string)) :
    require host (migrationPath host x migration) = Returned md ->
    run host x (mod_up md) st = (Returned tt, st2) ->
    capturedQueries st2 = (capturedQueries st ++ produced)%list ->
    Rounds rest
      (round_end x (insert_record (tableName x) migration)
         (formatQueries migration "up"
            (produced ++ [insert_record (tableName x) migration]))
         st2)
      captured st' ->
    Rounds (migration :: rest) st
      ((migration, (produced ++ [insert_record (tableName x) migration])%list)
         :: captured)
      st'.

End Rounds.

(* ================================================================== *)
(** * Properties *)

(** ** Strings *)

Lemma prefix_iff_append (p s : string) :
  String.prefix p s = true <-> exists r, s = p ++ r.
Proof.
  revert s; induction p as [|c p IH]; intros s.
  - destruct s; simpl; split; eauto.
  - destruct s as [|d s]; simpl.
    + split; [discriminate | intros [r Hr]; discriminate].
    + destruct (Ascii.ascii_dec c d) as [->|Hcd].
      * rewrite IH. split; intros [r Hr]; exists r; congruence.
      * split; [discriminate | intros [r Hr]; congruence].
Qed.

Lemma includes_iff_infix (s p : string) :
  Js.includes s p = true <-> exists a b, s = a ++ p ++ b.
Proof.
  induction s as [|c s IH]; cbn [Js.includes].
  - rewrite orb_false_r, prefix_iff_append. split.
    + intros [r Hr]. exists EmptyString, r. exact Hr.
    + intros [a [b Hab]]. destruct a; simpl in Hab; [eauto | discriminate].
  - rewrite orb_true_iff, prefix_iff_append, IH. split.
    + intros [[r Hr] | [a [b Hab]]].
      * exists EmptyString, r. exact Hr.
      * exists (String c a), b. simpl. congruence.
    + intros [a [b Hab]]. destruct a as [|d a]; simpl in Hab.
      * left. eauto.
      * right. exists a, b. congruence.
Qed.

Lemma lower_ascii_idempotent (c : ascii) :
  Js.lower_ascii (Js.lower_ascii c) = Js.lower_ascii c.
Proof.
  destruct c as [[] [] [] [] [] [] [] []]; reflexivity.
Qed.

Lemma toLowerCase_idempotent (s : string) :
  Js.toLowerCase (Js.toLowerCase s) = Js.toLowerCase s.
Proof.
  induction s as [|c s IH]; simpl; [reflexivity|].
  unfold Js.toLowerCase in *. simpl. now rewrite lower_ascii_idempotent, IH.
Qed.

Lemma startsWith_keyword_iff (s : string) :
  existsb (Js.startsWith s) leading_keywords = true
  <-> exists k rest, In k leading_keywords /\ s = k ++ rest.
Proof.
  rewrite existsb_exists. unfold Js.startsWith. split.
  - intros [k [Hin Hp]]. apply prefix_iff_append in Hp as [r Hr]. eauto.
  - intros [k [r [Hin Hr]]]. exists k. split; [exact Hin|].
    apply prefix_iff_append. eauto.
Qed.

(** ** C2: the classifier *)

(** C2, as the specification states it, fails: a statement that only names
    the catalog schema somewhere in its text passes through, although it
    begins with no introspection keyword and is not a select. *)
Lemma shouldPassThrough_not_spec_classifier :
  shouldPassThrough "SequelizeMeta" Demo.CATALOG_COPY = true
  /\ spec_classifier_passes "SequelizeMeta" Demo.CATALOG_COPY = false.
Proof. split; reflexivity. Qed.

(** C2, amended: whatever the tracking table is called, a string statement
    passes through exactly when its lower-case form begins with one of
    pragma, show, describe, select, or contains information_schema anywhere;
    every other string is captured.  A select that mentions the tracking
    table is one of the statements beginning with select. *)
Theorem shouldPassThrough_iff (tableName sql : string) :
  shouldPassThrough tableName sql = true
  <-> (exists k rest, In k leading_keywords /\ Js.toLowerCase sql = k ++ rest)
      \/ (exists a b, Js.toLowerCase sql = a ++ "information_schema" ++ b).
Proof.
  unfold shouldPassThrough, METADATA_QUERIES_test.
  rewrite toLowerCase_idempotent.
  rewrite <- startsWith_keyword_iff, <- includes_iff_infix.
  rewrite !orb_true_iff, andb_true_iff. split.
  - intros [[Hsel _] | [H | H]]; [left | left | right]; trivial.
    simpl. rewrite Hsel. now rewrite !orb_true_r.
  - intros [H | H]; right; [left | right]; exact H.
Qed.

(** ** C9: the transcript formatter *)





(** ** The interception layer *)

Section Runs.

Context {DB DbResult Exn QueryObject : Type}.
Variable host : @Host DB DbResult Exn QueryObject.
Variable x : Executor.

Local Abbreviation State := (@State DB).
Local Abbreviation Prog := (@Prog DbResult Exn QueryObject).

Lemma extends_refl (st : State) : extends st st.
Proof. exists []. now rewrite app_nil_r. Qed.

Lemma extends_trans (a b c : State) : extends a b -> extends b c -> extends a c.
Proof.
  intros [d1 H1] [d2 H2]. exists (d1 ++ d2)%list.
  now rewrite H2, H1, app_assoc.
Qed.

Lemma originals_query_frame payload options (st : State) :
  capturedQueries (snd (originals_query host payload options st)) = capturedQueries st.
Proof.
  unfold originals_query.
  destruct (real_query host payload options (db st)) as [[r|e] d]; reflexivity.
Qed.

Lemma patched_query_extends payload options (st : State) :
  extends st (snd (patched_query host x payload options st)).
Proof.
  unfold patched_query. destruct payload as [sql|obj].
  - destruct (shouldPassThrough (tableName x) sql).
    + exists []. now rewrite originals_query_frame, app_nil_r.
    + unfold bind, modify.
      destruct (type_is options (SELECT (QueryTypes host))).
      * exists [sql]. now rewrite originals_query_frame.
      * destruct (existsb _ _); exists [sql]; reflexivity.
  - exists []. now rewrite originals_query_frame, app_nil_r.
Qed.

Lemma call_query_extends payload options (st : State) :
  extends st (snd (call_query host x payload options st)).
Proof.
  unfold call_query.
  destruct (sequelize_query st) as [id|stamp target|stamp []];
    try apply patched_query_extends;
    exists []; now rewrite originals_query_frame, app_nil_r.
Qed.

Lemma run_extends {A} (p : Prog A) :
  forall st, extends st (snd (run host x p st)).
Proof.
  induction p as [a|e|payload options k IH]; intros st; simpl.
  - apply extends_refl.
  - apply extends_refl.
  - pose proof (call_query_extends payload options st) as Hq.
    destruct (call_query host x payload options st) as [c st1].
    eapply extends_trans; [exact Hq | apply IH].
Qed.

Lemma skipn_past_prefix (b delta : list string) :
  skipn (List.length b) (b ++ delta) = delta.
Proof.
  rewrite skipn_app, skipn_all, Nat.sub_diag. reflexivity.
Qed.

Lemma slice_after_push (b delta : list string) (statement : string) :
  skipn (List.length b) (Js.push (b ++ delta) statement)
  = (delta ++ [statement])%list.
Proof.
  unfold Js.push. now rewrite <- app_assoc, skipn_past_prefix.
Qed.

Lemma nth_final_is_last {A} (l : list A) (d : A) :
  nth (List.length l - 1) l d = last l d.
Proof.
  induction l as [|a [|b l] IH]; try reflexivity.
  change (last (a :: b :: l) d) with (last (b :: l) d). rewrite <- IH.
  simpl. now rewrite Nat.sub_0_r.
Qed.

(** *** Entries and the arrays written back into them *)

Lemma write_back_fixed arrays : forall results,
  map fixed_fields (write_back arrays results) = map fixed_fields results.
Proof.
  intros results. revert arrays.
  induction results as [|r results IH]; intros [|a arrays]; simpl;
    try reflexivity.
  now rewrite IH.
Qed.

Lemma write_back_same : forall results,
  write_back (map sql results) results = results.
Proof.
  induction results as [|r results IH]; simpl; [reflexivity|].
  rewrite IH. now destruct r.
Qed.


(** *** One round of the loop of [up] *)

Lemma round_end_buffer statement output (st2 : State) :
  capturedQueries (round_end x statement output st2)
  = Js.push (capturedQueries st2) statement.
Proof. unfold round_end. destruct (verbose x); reflexivity. Qed.

(** The round, by what [require], the procedure and the callback do. *)
Lemma up_migration_cases cb results calls migration (st : State) :
  up_migration host x cb results calls migration st =
  match require host (migrationPath host x migration) with
  | Threw e => (Threw e, st)
  | Returned md =>
    match run host x (mod_up md) st with
    | (Threw e, st2) => (Threw e, st2)
    | (Returned _, st2) =>
      let statement := insert_record (tableName x) migration in
      let queries :=
        (skipn (List.length (capturedQueries st)) (capturedQueries st2)
           ++ [statement])%list in
      let output := formatQueries migration "up" queries in
      let st3 := round_end x statement output st2 in
      let results1 := (results ++ [mkResult migration Up queries output])%list in
      let calls1 := (calls ++ [(migration, queries)])%list in
      match cb with
      | None => (Returned (results1, calls1), st3)
      | Some f =>
        match f calls1 with
        | (Returned _, arrays) => (Returned (write_back arrays results1, calls1), st3)
        | (Threw e, _) => (Threw e, st3)
        end
      end
    end
  end.
Proof.
  unfold up_migration, bind, captured_length, lift.
  destruct (require host (migrationPath host x migration)) as [md|e]; [|reflexivity].
  pose proof (run_extends (mod_up md) st) as [delta Hd].
  destruct (run host x (mod_up md) st) as [[[]|e] st2]; [|reflexivity].
  simpl in Hd. cbv zeta.
  unfold capture, captured_slice, modify. cbn [capturedQueries set_captured].
  rewrite Hd, !slice_after_push, skipn_past_prefix.
  unfold round_end, when, log, modify, call_onMigration, throw, ret, Js.push.
  rewrite Hd.
  destruct (verbose x); destruct cb as [f|];
    try (destruct (f _) as [[[]|e] arrays]); reflexivity.
Qed.

Lemma found_is_logged pending (st1 : State) :
  when (Exn := Exn) (verbose x)
    (bind (log ("Found " ++ Js.of_nat (List.length pending)
                  ++ " pending migration(s):"))
          (fun _ => log_pending 0 pending)) st1
  = (Returned tt, found x pending st1).
Proof.
  assert (L : forall pending i (st : State),
             log_pending (Exn := Exn) i pending st
             = (Returned tt, set_logged (logged st ++ listing i pending) st)).
  { clear. induction pending as [|m pending IH]; intros i st; cbn [log_pending].
    - unfold ret, listing. simpl. rewrite app_nil_r. now destruct st.
    - unfold bind, log, modify. rewrite IH. unfold Js.push, listing.
      cbn [logged set_logged List.length seq combine map fst snd].
      now rewrite <- app_assoc. }
  unfold when, found. destruct (verbose x); [|reflexivity].
  unfold bind, log, modify. now rewrite L.
Qed.

(** The completion of [up] when the runner has reported [pending]. *)
Lemma up_after_discovery cb (st st1 : State) pending :
  run host x (umzug_pending host (new_Umzug host x)) (installed st)
    = (Returned pending, st1) ->
  up host x cb st =
    let (c, st2) :=
      (if Nat.eqb (List.length pending) 0 then
         bind (when (verbose x) (log "✓ No pending migrations")) (fun _ => ret [])
       else
         bind (up_loop host x cb pending [] [])
           (fun results =>
              bind (when (verbose x)
                      (log (Js.LF ++ "✓ Dry run completed — NO database changes made")))
                   (fun _ => ret results))) (if Nat.eqb (List.length pending) 0
                                             then st1 else found x pending st1) in
    (c, restore x st2).
Proof.
  intros H. unfold up, try_finally, bind at 1 2 3, modify.
  unfold installed in H. rewrite H.
  destruct (Nat.eqb (List.length pending) 0); [reflexivity|].
  unfold bind at 1. now rewrite found_is_logged.
Qed.

Lemma announced_buffer lastMigration (st1 : State) :
  capturedQueries (announced x lastMigration st1) = capturedQueries st1.
Proof. unfold announced. destruct (verbose x); reflexivity. Qed.

(** The completion of [down] when the runner has reported [executed], by
    what [require], the procedure and the callback do. *)
Lemma down_after_discovery cb (st st1 : State) executed :
  run host x (umzug_executed host (new_Umzug host x)) (installed st)
    = (Returned executed, st1) ->
  executed <> [] ->
  let lastMigration := last executed EmptyString in
  down host x cb st =
    match require host (migrationPath host x lastMigration) with
    | Threw e => (Threw e, restore x (announced x lastMigration st1))
    | Returned md =>
      match run host x (mod_down md) (announced x lastMigration st1) with
      | (Threw e, st2) => (Threw e, restore x st2)
      | (Returned _, st2) =>
        let statement := delete_record (tableName x) lastMigration in
        let queries :=
          (skipn (List.length (capturedQueries st1)) (capturedQueries st2)
             ++ [statement])%list in
        let output := formatQueries lastMigration "down" queries in
        let result := mkResult lastMigration Down queries output in
        match cb with
        | None =>
            (Returned (Some result), restore x (down_end x statement output st2))
        | Some f =>
          match f [(lastMigration, queries)] with
          | (Returned _, arrays) =>
              (Returned (hd_error (write_back arrays [result])),
               restore x (down_end x statement output st2))
          | (Threw e, _) => (Threw e, restore x (round_end x statement output st2))
          end
        end
      end
    end.
Proof.
  intros H Hne lastMigration.
  unfold down, try_finally, bind at 1 2 3, modify.
  unfold installed in H. rewrite H.
  destruct executed as [|m executed]; [congruence|].
  change (Nat.eqb (List.length (m :: executed)) 0) with false. cbv iota.
  rewrite nth_final_is_last. fold lastMigration.
  assert (Hw : when (Exn := Exn) (verbose x)
                 (log ("Last executed migration: " ++ lastMigration ++ Js.LF)) st1
               = (Returned tt, announced x lastMigration st1)).
  { unfold announced, when, log, modify, ret. destruct (verbose x); reflexivity. }
  unfold bind at 1. rewrite Hw.
  unfold bind at 1, captured_length. unfold bind at 1, lift.
  destruct (require host (migrationPath host x lastMigration)) as [md|e]; [|reflexivity].
  unfold bind at 1.
  pose proof (run_extends (mod_down md) (announced x lastMigration st1)) as [delta Hd].
  destruct (run host x (mod_down md) (announced x lastMigration st1)) as [[[]|e] st2];
    [|reflexivity].
  simpl in Hd. rewrite announced_buffer in *. cbv zeta.
  unfold bind at 1, capture, modify. unfold bind at 1, captured_slice.
  cbn [capturedQueries set_captured].
  rewrite Hd, !slice_after_push, skipn_past_prefix.
  unfold down_end, round_end, bind, when, log, modify, call_onMigration, throw, ret,
    Js.push.
  rewrite Hd.
  destruct (verbose x); destruct cb as [f|];
    try (destruct (f _) as [[[]|e] arrays]); reflexivity.
Qed.

(** *** The rounds of the loop of [up] *)

Lemma up_loop_rounds cb pending :
  forall results calls (st : State) rs st',
    up_loop host x cb pending results calls st = (Returned rs, st') ->
    exists captured,
      Rounds host x pending st captured st'
      /\ map fixed_fields rs
         = (map fixed_fields results ++ map captured_entry captured)%list
      /\ (never_writes cb ->
          map sql results = map snd calls ->
          map sql rs = (map sql results ++ map snd captured)%list).
Proof.
  induction pending as [|m pending IH]; intros results calls st rs st' H.
  - inversion H; subst. exists []. simpl. rewrite !app_nil_r.
    split; [constructor|]. split; [reflexivity|]. intros _ _. reflexivity.
  - simpl in H. unfold bind in H. rewrite up_migration_cases in H.
    destruct (require host (migrationPath host x m)) as [md|e] eqn:Hreq;
      [|discriminate].
    pose proof (run_extends (mod_up md) st) as [delta Hd].
    destruct (run host x (mod_up md) st) as [[[]|e] st2] eqn:Hrun; [|discriminate].
    simpl in Hd. cbv zeta in H. rewrite Hd, skipn_past_prefix in H.
    set (statement := insert_record (tableName x) m) in *.
    set (queries := (delta ++ [statement])%list) in *.
    set (entry := mkResult m Up queries (formatQueries m "up" queries)) in *.
    assert (Hstep : exists written,
               up_loop host x cb pending written (calls ++ [(m, queries)])%list
                 (round_end x statement (formatQueries m "up" queries) st2)
               = (Returned rs, st')
               /\ map fixed_fields written
                  = map fixed_fields (results ++ [entry])%list
               /\ (never_writes cb -> map sql results = map snd calls ->
                   written = (results ++ [entry])%list)).
    { destruct cb as [f|].
      - destruct (f (calls ++ [(m, queries)])%list) as [[[]|e] arrays] eqn:Hf;
          [|discriminate].
        exists (write_back arrays (results ++ [entry])%list).
        split; [exact H|]. split; [apply write_back_fixed|].
        intros Hnw Hinv.
        pose proof (Hnw f (calls ++ [(m, queries)])%list eq_refl) as Hw.
        rewrite Hf in Hw. simpl in Hw. subst arrays. rewrite map_app. simpl.
        rewrite <- Hinv.
        change (map sql results ++ [queries])%list
          with (map sql results ++ map sql [entry])%list.
        rewrite <- map_app. apply write_back_same.
      - exists (results ++ [entry])%list. split; [exact H|].
        split; [reflexivity|]. intros _ _. reflexivity. }
    destruct Hstep as [written [Hloop [Hfix Hsame]]].
    apply IH in Hloop as [captured [HR [Hff Hsql]]].
    exists ((m, queries) :: captured). split; [|split].
    + econstructor; eauto.
    + rewrite Hff, Hfix, map_app. simpl. now rewrite <- app_assoc.
    + intros Hnw Hinv. rewrite Hsql; auto.
      * rewrite (Hsame Hnw Hinv), map_app. simpl. now rewrite <- app_assoc.
      * rewrite (Hsame Hnw Hinv), !map_app. simpl. now rewrite Hinv.
Qed.



Lemma rounds_buffer pending (st st' : State) captured :
  Rounds host x pending st captured st' ->
  capturedQueries st'
  = (capturedQueries st ++ List.concat (map snd captured))%list.
Proof.
  induction 1 as [st|m rest st st2 st' md produced captured Hreq Hrun Hb HR IH].
  - simpl. now rewrite app_nil_r.
  - rewrite IH, round_end_buffer, Hb. unfold Js.push. simpl.
    now rewrite <- !app_assoc.
Qed.

(** *** The buffer across runs *)

Lemma shifts_ret {A} (a : A) : Shifts (DB := DB) (Exn := Exn) (ret a).
Proof. intros b st. reflexivity. Qed.

Lemma shifts_lift {A} (c : Completion A) : Shifts (DB := DB) (Exn := Exn) (lift c).
Proof. intros b st. reflexivity. Qed.

Lemma shifts_bind {A B} (m : M A) (f : A -> M B) :
  Shifts (DB := DB) (Exn := Exn) m -> (forall a, Shifts (DB := DB) (Exn := Exn) (f a)) -> Shifts (DB := DB) (Exn := Exn) (bind m f).
Proof.
  intros Hm Hf b st. unfold bind. rewrite Hm.
  destruct (m st) as [[a|e] st1]; [apply Hf | reflexivity].
Qed.

Lemma shifts_log line : Shifts (DB := DB) (Exn := Exn) (log line).
Proof. intros b st. reflexivity. Qed.

Lemma shifts_when flag m : Shifts (DB := DB) (Exn := Exn) m -> Shifts (DB := DB) (Exn := Exn) (when flag m).
Proof. intros Hm. destruct flag; [exact Hm | apply shifts_ret]. Qed.

Lemma shifts_capture statement : Shifts (DB := DB) (Exn := Exn) (capture statement).
Proof.
  intros b st. unfold capture, modify, shift, Js.push. simpl.
  now rewrite app_assoc.
Qed.

Lemma shifts_originals_query payload options :
  Shifts (DB := DB) (Exn := Exn) (originals_query host payload options).
Proof.
  intros b st. unfold originals_query. simpl.
  destruct (real_query host payload options (db st)) as [[r|e] d]; reflexivity.
Qed.

Lemma shifts_patched_query payload options :
  Shifts (DB := DB) (Exn := Exn) (patched_query host x payload options).
Proof.
  unfold patched_query. destruct payload as [sql|obj].
  - destruct (shouldPassThrough (tableName x) sql).
    + apply shifts_originals_query.
    + apply shifts_bind; [apply (shifts_capture sql)|]. intros _.
      destruct (type_is options (SELECT (QueryTypes host)));
        [apply shifts_originals_query|].
      destruct (existsb _ _); apply shifts_ret.
  - apply shifts_originals_query.
Qed.

Lemma shifts_call_query payload options :
  Shifts (DB := DB) (Exn := Exn) (call_query host x payload options).
Proof.
  intros b st. unfold call_query.
  change (sequelize_query (shift b st)) with (sequelize_query st).
  destruct (sequelize_query st) as [id|stamp target|stamp []];
    try apply shifts_patched_query; apply shifts_originals_query.
Qed.

Lemma shifts_run {A} (p : Prog A) : Shifts (DB := DB) (Exn := Exn) (run host x p).
Proof.
  induction p as [a|e|payload options k IH]; intros b st; simpl.
  - reflexivity.
  - reflexivity.
  - rewrite shifts_call_query.
    destruct (call_query host x payload options st) as [c st1]. apply IH.
Qed.

Lemma shifts_call_onMigration cb calls results :
  Shifts (DB := DB) (Exn := Exn) (call_onMigration cb calls results).
Proof.
  intros b st. unfold call_onMigration.
  destruct cb as [f|]; [destruct (f calls) as [[[]|e] arrays]|]; reflexivity.
Qed.

Lemma slice_shifted (b buffer buffer' : list string) :
  skipn (List.length (b ++ buffer)) (b ++ buffer')
  = skipn (List.length buffer) buffer'.
Proof.
  rewrite length_app, skipn_app.
  rewrite skipn_all2 by apply Nat.le_add_r.
  simpl. f_equal. rewrite Nat.add_comm. apply Nat.add_sub.
Qed.

(** Reading the length and slicing from it afterwards is insensitive to
    what was in front. *)
Lemma shifts_sliced {A B} (m : M A) (K : list string -> M B) :
  Shifts (DB := DB) (Exn := Exn) m -> (forall queries, Shifts (DB := DB) (Exn := Exn) (K queries)) ->
  Shifts (DB := DB) (Exn := Exn) (bind captured_length
            (fun startIdx => bind m (fun _ => bind (captured_slice startIdx) K))).
Proof.
  intros Hm HK b st. unfold bind, captured_length, captured_slice.
  rewrite Hm.
  destruct (m st) as [[a|e] st1]; [|reflexivity].
  change (capturedQueries (shift b st)) with (b ++ capturedQueries st)%list.
  change (capturedQueries (shift b st1)) with (b ++ capturedQueries st1)%list.
  rewrite slice_shifted. apply HK.
Qed.

Lemma bind_assoc {A B C} (m : M (Exn := Exn) A) (f : A -> M B) (g : B -> M C)
    (st : State) :
  bind (bind m f) g st = bind m (fun a => bind (f a) g) st.
Proof.
  unfold bind. destruct (m st) as [[a|e] st1]; reflexivity.
Qed.

Lemma shifts_ext {A} (m m' : M A) :
  (forall st : State, m st = m' st) -> Shifts (DB := DB) (Exn := Exn) m' -> Shifts (DB := DB) (Exn := Exn) m.
Proof. intros E H b st. rewrite !E. apply H. Qed.

Lemma shifts_up_migration cb results calls migration :
  Shifts (DB := DB) (Exn := Exn) (up_migration host x cb results calls migration).
Proof.
  apply shifts_ext with
    (m' := bind captured_length
      (fun startIdx => bind
         (bind (lift (require host (migrationPath host x migration)))
            (fun mod_ => bind (run host x (mod_up mod_))
               (fun _ => capture (insert_record (tableName x) migration))))
         (fun _ => bind (captured_slice startIdx)
            (fun queries =>
               bind (when (verbose x) (log (formatQueries migration "up" queries)))
                 (fun _ => bind
                    (call_onMigration cb (Js.push calls (migration, queries))
                       (Js.push results
                          (mkResult migration Up queries
                             (formatQueries migration "up" queries))))
                    (fun written => ret (written, Js.push calls (migration, queries)))))))).
  - intros st0. unfold up_migration, bind, captured_length, lift.
    destruct (require host (migrationPath host x migration)) as [md|e]; [|reflexivity].
    destruct (run host x (mod_up md) st0) as [[[]|e] st2]; reflexivity.
  - apply shifts_sliced.
    + apply shifts_bind; [apply shifts_lift|]. intros md.
      apply shifts_bind; [apply shifts_run|]. intros _. apply shifts_capture.
    + intros queries. apply shifts_bind; [apply shifts_when, shifts_log|]. intros _.
      apply shifts_bind; [apply shifts_call_onMigration|]. intros written.
      apply shifts_ret.
Qed.

Lemma shifts_up_loop cb pending :
  forall results calls,
    Shifts (DB := DB) (Exn := Exn) (up_loop host x cb pending results calls).
Proof.
  induction pending as [|m pending IH]; intros results calls; simpl.
  - apply shifts_ret.
  - apply shifts_bind; [apply shifts_up_migration | intros round; apply IH].
Qed.

Lemma shifts_log_pending pending : forall i, Shifts (DB := DB) (Exn := Exn) (log_pending i pending).
Proof.
  induction pending as [|m pending IH]; intros i; simpl.
  - apply shifts_ret.
  - apply shifts_bind; [apply shifts_log | intros _; apply IH].
Qed.

Lemma shifts_modify (f : State -> State) :
  (forall b st, f (shift b st) = shift b (f st)) -> Shifts (DB := DB) (Exn := Exn) (modify f).
Proof. intros Hf b st. unfold modify. now rewrite Hf. Qed.

Lemma shifts_try_finally {A} (body : M A) (cleanup : State -> State) :
  Shifts (DB := DB) (Exn := Exn) body -> (forall b st, cleanup (shift b st) = shift b (cleanup st)) ->
  Shifts (DB := DB) (Exn := Exn) (try_finally body cleanup).
Proof.
  intros Hb Hc b st. unfold try_finally. rewrite Hb.
  destruct (body st) as [c st1]. now rewrite Hc.
Qed.

Lemma shifts_up cb : Shifts (DB := DB) (Exn := Exn) (up host x cb).
Proof.
  unfold up. apply shifts_try_finally; [|reflexivity].
  apply shifts_bind; [apply shifts_modify; reflexivity|]. intros _.
  apply shifts_bind; [apply shifts_modify; reflexivity|]. intros _.
  apply shifts_bind; [apply shifts_run|]. intros pending.
  destruct (Nat.eqb (List.length pending) 0).
  - apply shifts_bind; [apply shifts_when, shifts_log|]. intros _. apply shifts_ret.
  - apply shifts_bind.
    + apply shifts_when, shifts_bind; [apply shifts_log|].
      intros _. apply shifts_log_pending.
    + intros _. apply shifts_bind; [apply shifts_up_loop|]. intros results.
      apply shifts_bind; [apply shifts_when, shifts_log|]. intros _. apply shifts_ret.
Qed.

Lemma shifts_down cb : Shifts (DB := DB) (Exn := Exn) (down host x cb).
Proof.
  unfold down. apply shifts_try_finally; [|reflexivity].
  apply shifts_bind; [apply shifts_modify; reflexivity|]. intros _.
  apply shifts_bind; [apply shifts_modify; reflexivity|]. intros _.
  apply shifts_bind; [apply shifts_run|]. intros executed.
  destruct (Nat.eqb (List.length executed) 0).
  - apply shifts_bind; [apply shifts_when, shifts_log|]. intros _. apply shifts_ret.
  - set (lastMigration := nth (List.length executed - 1) executed EmptyString).
    apply shifts_bind; [apply shifts_when, shifts_log|]. intros _.
    apply shifts_ext with
      (m' := bind captured_length
          (fun startIdx => bind
             (bind (lift (require host (migrationPath host x lastMigration)))
                (fun mod_ => bind (run host x (mod_down mod_))
                   (fun _ => capture (delete_record (tableName x) lastMigration))))
             (fun _ => bind (captured_slice startIdx)
                (fun queries =>
                   bind (when (verbose x) (log (formatQueries lastMigration "down" queries)))
                     (fun _ => bind
                        (call_onMigration cb [(lastMigration, queries)]
                           [mkResult lastMigration Down queries
                              (formatQueries lastMigration "down" queries)])
                        (fun written => bind
                           (when (verbose x)
                              (log (Js.LF ++ "✓ Dry run completed — NO database changes made")))
                           (fun _ => ret (hd_error written)))))))).
    + intros st0. unfold bind, captured_length, lift.
      destruct (require host (migrationPath host x lastMigration)) as [md|e];
        [|reflexivity].
      destruct (run host x (mod_down md) st0) as [[[]|e] st2]; reflexivity.
    + apply shifts_sliced.
      * apply shifts_bind; [apply shifts_lift|]. intros md.
        apply shifts_bind; [apply shifts_run|]. intros _. apply shifts_capture.
      * intros queries. apply shifts_bind; [apply shifts_when, shifts_log|]. intros _.
        apply shifts_bind; [apply shifts_call_onMigration|]. intros written.
        apply shifts_bind; [apply shifts_when, shifts_log|]. intros _.
        apply shifts_ret.
Qed.

Lemma shift_of_emptied (st : State) :
  shift (capturedQueries st) (set_captured [] st) = st.
Proof. destruct st. unfold shift, set_captured. simpl. now rewrite app_nil_r. Qed.

(** *** Restoration *)

Lemma restore_slots (st : State) :
  sequelize_query (restore x st) = orig_query (originals x)
  /\ logMigration (restore x st) = orig_logMigration (originals x)
  /\ unlogMigration (restore x st) = orig_unlogMigration (originals x).
Proof. repeat split. Qed.

(** Every exit of [up] and of [down] goes through [restore]. *)
Lemma up_ends_restored cb (st : State) :
  exists st1, snd (up host x cb st) = restore x st1.
Proof.
  unfold up, try_finally.
  match goal with |- context [let (c, st1) := ?body st in _] =>
    destruct (body st) as [c st1] end.
  now exists st1.
Qed.

Lemma down_ends_restored cb (st : State) :
  exists st1, snd (down host x cb st) = restore x st1.
Proof.
  unfold down, try_finally.
  match goal with |- context [let (c, st1) := ?body st in _] =>
    destruct (body st) as [c st1] end.
  now exists st1.
Qed.

Lemma down_nothing_executed cb (st st1 : State) :
  run host x (umzug_executed host (new_Umzug host x)) (installed st)
    = (Returned [], st1) ->
  fst (down host x cb st) = Returned None.
Proof.
  intros H. unfold down, try_finally, bind at 1 2 3, modify.
  unfold installed in H. rewrite H. simpl.
  unfold bind, when, log, modify, ret. destruct (verbose x); reflexivity.
Qed.

Lemma up_nothing_pending cb (st st1 : State) :
  run host x (umzug_pending host (new_Umzug host x)) (installed st)
    = (Returned [], st1) ->
  fst (up host x cb st) = Returned [].
Proof.
  intros H. rewrite (up_after_discovery cb st st1 [] H). simpl.
  unfold bind, when, log, modify, ret. destruct (verbose x); reflexivity.
Qed.

End Runs.
(** ** What a run leaves alone *)

Section Preservation.

Context {DB DbResult Exn QueryObject : Type}.
Variable host : @Host DB DbResult Exn QueryObject.
Variable x : Executor.

Context {T : Type}.
Variable obs : @State DB -> T.

Hypothesis obs_db : forall d st, obs (set_db d st) = obs st.
Hypothesis obs_captured : forall b st, obs (set_captured b st) = obs st.

Local Abbreviation Keeps := (@Keeps DB Exn T _ obs).

Lemma keeps_ret {A} (a : A) : Keeps (ret a).
Proof. intros st. reflexivity. Qed.

Lemma keeps_lift {A} (c : Completion A) : Keeps (lift c).
Proof. intros st. reflexivity. Qed.

Lemma keeps_bind {A B} (m : M A) (f : A -> M B) :
  Keeps m -> (forall a, Keeps (f a)) -> Keeps (bind m f).
Proof.
  intros Hm Hf st. unfold bind. specialize (Hm st).
  destruct (m st) as [[a|e] st1]; simpl in Hm.
  - now rewrite Hf.
  - exact Hm.
Qed.

Lemma keeps_capture statement : Keeps (capture statement).
Proof. intros st. apply obs_captured. Qed.

Lemma keeps_originals_query payload options :
  Keeps (originals_query host payload options).
Proof.
  intros st. unfold originals_query.
  destruct (real_query host payload options (db st)) as [[r|e] d]; apply obs_db.
Qed.

Lemma keeps_patched_query payload options :
  Keeps (patched_query host x payload options).
Proof.
  unfold patched_query. destruct payload as [sql|obj].
  - destruct (shouldPassThrough (tableName x) sql).
    + apply keeps_originals_query.
    + apply keeps_bind; [apply (keeps_capture sql)|]. intros _.
      destruct (type_is options (SELECT (QueryTypes host)));
        [apply keeps_originals_query|].
      destruct (existsb _ _); apply keeps_ret.
  - apply keeps_originals_query.
Qed.

Lemma keeps_call_query payload options :
  Keeps (call_query host x payload options).
Proof.
  intros st. unfold call_query.
  destruct (sequelize_query st) as [id|stamp target|stamp []];
    try apply keeps_patched_query; apply keeps_originals_query.
Qed.

Lemma keeps_run {A} (p : Prog A) : Keeps (run host x p).
Proof.
  induction p as [a|e|payload options k IH]; intros st; simpl.
  - reflexivity.
  - reflexivity.
  - pose proof (keeps_call_query payload options st) as Hq.
    destruct (call_query host x payload options st) as [c st1].
    simpl in Hq. now rewrite IH.
Qed.

Lemma keeps_call_onMigration cb calls results :
  Keeps (call_onMigration cb calls results).
Proof.
  intros st. unfold call_onMigration.
  destruct cb as [f|]; [destruct (f calls) as [[[]|e] arrays]|]; reflexivity.
Qed.

(** The logger is written to only by a verbose executor. *)
Hypothesis obs_logged :
  verbose x = true -> forall l st, obs (set_logged l st) = obs st.

Lemma keeps_when_verbose (m : M unit) :
  (verbose x = true -> Keeps m) -> Keeps (when (verbose x) m).
Proof.
  intros Hm. destruct (verbose x); [now apply Hm | apply keeps_ret].
Qed.

Lemma keeps_log_if_verbose line : verbose x = true -> Keeps (log line).
Proof. intros Hv st. now apply obs_logged. Qed.

Lemma keeps_log_pending pending :
  verbose x = true -> forall i, Keeps (log_pending i pending).
Proof.
  intros Hv. induction pending as [|m pending IH]; intros i; simpl.
  - apply keeps_ret.
  - apply keeps_bind; [now apply keeps_log_if_verbose | intros _; apply IH].
Qed.

Lemma keeps_up_migration cb results calls migration :
  Keeps (up_migration host x cb results calls migration).
Proof.
  unfold up_migration.
  apply keeps_bind; [intros st; reflexivity|]. intros startIdx.
  apply keeps_bind; [apply keeps_lift|]. intros md.
  apply keeps_bind; [apply keeps_run|]. intros _.
  apply keeps_bind; [apply keeps_capture|]. intros _.
  apply keeps_bind; [intros st; reflexivity|]. intros queries.
  apply keeps_bind; [apply keeps_when_verbose, keeps_log_if_verbose|]. intros _.
  apply keeps_bind; [apply keeps_call_onMigration|]. intros written.
  apply keeps_ret.
Qed.

Lemma keeps_up_loop cb pending :
  forall results calls, Keeps (up_loop host x cb pending results calls).
Proof.
  induction pending as [|m pending IH]; intros results calls; simpl.
  - apply keeps_ret.
  - apply keeps_bind; [apply keeps_up_migration | intros round; apply IH].
Qed.

Hypothesis obs_slots : forall q l u n st, obs (set_slots q l u n st) = obs st.

(** The body of [up] and of [down] with the patches and [restore] around it. *)
Lemma keeps_up cb : Keeps (up host x cb).
Proof.
  intros st. unfold up, try_finally.
  match goal with |- context [let (c, st1) := ?body st in _] =>
    assert (H : Keeps body); [|specialize (H st); destruct (body st) as [c st1]] end.
  - apply keeps_bind; [intros s; apply obs_slots|]. intros _.
    apply keeps_bind; [intros s; apply obs_slots|]. intros _.
    apply keeps_bind; [apply keeps_run|]. intros pending.
    destruct (Nat.eqb (List.length pending) 0).
    + apply keeps_bind; [apply keeps_when_verbose, keeps_log_if_verbose|].
      intros _. apply keeps_ret.
    + apply keeps_bind.
      * apply keeps_when_verbose. intros Hv.
        apply keeps_bind; [now apply keeps_log_if_verbose|].
        intros _. now apply keeps_log_pending.
      * intros _. apply keeps_bind; [apply keeps_up_loop|]. intros results.
        apply keeps_bind; [apply keeps_when_verbose, keeps_log_if_verbose|].
        intros _. apply keeps_ret.
  - simpl in *. unfold restore. now rewrite obs_slots.
Qed.

Lemma keeps_down cb : Keeps (down host x cb).
Proof.
  intros st. unfold down, try_finally.
  match goal with |- context [let (c, st1) := ?body st in _] =>
    assert (H : Keeps body); [|specialize (H st); destruct (body st) as [c st1]] end.
  - apply keeps_bind; [intros s; apply obs_slots|]. intros _.
    apply keeps_bind; [intros s; apply obs_slots|]. intros _.
    apply keeps_bind; [apply keeps_run|]. intros executed.
    destruct (Nat.eqb (List.length executed) 0).
    + apply keeps_bind; [apply keeps_when_verbose, keeps_log_if_verbose|].
      intros _. apply keeps_ret.
    + apply keeps_bind; [apply keeps_when_verbose, keeps_log_if_verbose|]. intros _.
      apply keeps_bind; [intros s; reflexivity|]. intros startIdx.
      apply keeps_bind; [apply keeps_lift|]. intros md.
      apply keeps_bind; [apply keeps_run|]. intros _.
      apply keeps_bind; [apply keeps_capture|]. intros _.
      apply keeps_bind; [intros s; reflexivity|]. intros queries.
      apply keeps_bind; [apply keeps_when_verbose, keeps_log_if_verbose|]. intros _.
      apply keeps_bind; [apply keeps_call_onMigration|]. intros written.
      apply keeps_bind; [apply keeps_when_verbose, keeps_log_if_verbose|]. intros _.
      apply keeps_ret.
  - simpl in *. unfold restore. now rewrite obs_slots.
Qed.

End Preservation.

(** ** Supporting facts *)

Section Support.

Context {DB DbResult Exn QueryObject : Type}.
Variable host : @Host DB DbResult Exn QueryObject.
Variable x : Executor.

Local Abbreviation State := (@State DB).
Local Abbreviation Prog := (@Prog DbResult Exn QueryObject).

Lemma installed_query_slot (st : State) :
  sequelize_query (installed st) = Arrow (S (S (next_stamp st))) QueryPatch.
Proof. reflexivity. Qed.

Lemma run_keeps_query_slot {A} (p : Prog A) (st : State) :
  sequelize_query (snd (run host x p st)) = sequelize_query st.
Proof. apply (keeps_run host x sequelize_query); reflexivity. Qed.

(** Outside code whose calls are all suppressed changes the buffer only. *)
Lemma run_only_suppressed {A} (p : Prog A) :
  only_suppressed host x p = true ->
  forall (st : State) n,
    sequelize_query st = Arrow n QueryPatch ->
    snd (run host x p st)
    = set_captured (capturedQueries st ++ issued host p) st.
Proof.
  induction p as [a|e|payload options k IH]; intros Hs st n Hslot.
  - simpl. rewrite app_nil_r. now destruct st.
  - simpl. rewrite app_nil_r. now destruct st.
  - simpl in Hs. apply andb_true_iff in Hs as [Hsup Hrest].
    destruct payload as [sql|obj]; [|discriminate].
    simpl in Hsup. apply andb_true_iff in Hsup as [Hpass Hsel].
    apply negb_true_iff in Hpass, Hsel.
    cbn [run issued]. unfold call_query. rewrite Hslot.
    unfold patched_query. rewrite Hpass. unfold bind, modify. rewrite Hsel.
    fold (inert_answer host options).
    assert (E : forall st0 : State,
               (if existsb (type_is options)
                     [INSERT (QueryTypes host); UPDATE (QueryTypes host);
                      DELETE (QueryTypes host)]
                then ret (Exn := Exn) EmptyEffect else ret EmptyResultSet) st0
               = (Returned (inert_answer host options), st0)).
    { intros st0. unfold inert_answer. destruct (existsb _ _); reflexivity. }
    rewrite E.
    rewrite (IH _ Hrest _ n) by exact Hslot.
    unfold Js.push. cbn [capturedQueries set_captured].
    rewrite <- app_assoc. reflexivity.
Qed.

Lemma round_end_db statement output (st2 : State) :
  db (round_end x statement output st2) = db st2.
Proof. unfold round_end. destruct (verbose x); reflexivity. Qed.

Lemma up_migration_keeps_db cb results calls migration (st : State) n :
  sequelize_query st = Arrow n QueryPatch ->
  (forall md, require host (migrationPath host x migration) = Returned md ->
              only_suppressed host x (mod_up md) = true) ->
  db (snd (up_migration host x cb results calls migration st)) = db st.
Proof.
  intros Hslot Hsup. rewrite up_migration_cases.
  destruct (require host (migrationPath host x migration)) as [md|e]; [|reflexivity].
  pose proof (run_only_suppressed (mod_up md) (Hsup md eq_refl) st n Hslot) as Hrun.
  destruct (run host x (mod_up md) st) as [[[]|e] st2]; simpl in Hrun; subst st2;
    [|reflexivity].
  cbv zeta.
  destruct cb as [f|]; [destruct (f _) as [[[]|e] arrays]|];
    simpl; now rewrite round_end_db.
Qed.

Lemma up_loop_keeps_db cb pending :
  forall results calls (st : State) n,
    sequelize_query st = Arrow n QueryPatch ->
    (forall m md, In m pending ->
                  require host (migrationPath host x m) = Returned md ->
                  only_suppressed host x (mod_up md) = true) ->
    db (snd (up_loop host x cb pending results calls st)) = db st.
Proof.
  induction pending as [|m pending IH]; intros results calls st n Hslot Hsup.
  - reflexivity.
  - simpl. unfold bind.
    pose proof (up_migration_keeps_db cb results calls m st n Hslot
                  (fun md => Hsup m md (or_introl eq_refl))) as Hdb.
    pose proof (keeps_up_migration host x sequelize_query
                  (fun _ _ => eq_refl) (fun _ _ => eq_refl)
                  (fun _ _ _ => eq_refl) cb results calls m st) as Hq.
    destruct (up_migration host x cb results calls m st) as [[round|e] st1];
      simpl in Hdb, Hq; [|exact Hdb].
    rewrite (IH (fst round) (snd round) st1 n); [exact Hdb | now rewrite Hq |].
    intros m' md Hin. apply Hsup. now right.
Qed.

End Support.

Section Thrown.

Context {DB DbResult Exn QueryObject : Type}.
Variable host : @Host DB DbResult Exn QueryObject.
Variable x : Executor.

Local Abbreviation State := (@State DB).

Lemma up_loop_threw cb pending :
  forall results calls (st : State) e st',
    up_loop host x cb pending results calls st = (Threw e, st') ->
    exists m,
      In m pending
      /\ (require host (migrationPath host x m) = Threw e
          \/ (exists md st_m,
                 require host (migrationPath host x m) = Returned md
                 /\ fst (run host x (mod_up md) st_m) = Threw e)
          \/ (exists f calls_m, cb = Some f /\ fst (f calls_m) = Threw e)).
Proof.
  induction pending as [|m pending IH]; intros results calls st e st' H.
  - discriminate.
  - simpl in H. unfold bind in H. rewrite up_migration_cases in H.
    destruct (require host (migrationPath host x m)) as [md|e0] eqn:Hreq.
    + destruct (run host x (mod_up md) st) as [[[]|e0] st2] eqn:Hrun.
      * cbv zeta in H. destruct cb as [f|].
        -- match type of H with
           | context [f ?c] => destruct (f c) as [[[]|e0] arrays] eqn:Hf
           end.
           ++ apply IH in H as [m' [Hin Hwhy]].
              exists m'. split; [now right | exact Hwhy].
           ++ inversion H; subst. exists m. split; [now left|].
              right. right. eexists f, _. split; [reflexivity|].
              now rewrite Hf.
        -- apply IH in H as [m' [Hin Hwhy]].
           exists m'. split; [now right | exact Hwhy].
      * inversion H; subst. exists m. split; [now left|].
        right. left. exists md, st. split; [exact Hreq | now rewrite Hrun].
    + inversion H; subst. exists m. split; [now left|]. left. exact Hreq.
Qed.

End Thrown.

Section Returned.

Context {DB DbResult Exn QueryObject : Type}.
Variable host : @Host DB DbResult Exn QueryObject.
Variable x : Executor.

Local Abbreviation State := (@State DB).

Lemma found_query_slot pending (st1 : State) :
  sequelize_query (found x pending st1) = sequelize_query st1.
Proof. unfold found. destruct (verbose x); reflexivity. Qed.

Lemma found_db pending (st1 : State) : db (found x pending st1) = db st1.
Proof. unfold found. destruct (verbose x); reflexivity. Qed.

Lemma found_buffer pending (st1 : State) :
  capturedQueries (found x pending st1) = capturedQueries st1.
Proof. unfold found. destruct (verbose x); reflexivity. Qed.

Lemma discovery_query_slot {A} (p : @Prog DbResult Exn QueryObject A)
    (st st1 : State) c :
  run host x p (installed st) = (c, st1) ->
  sequelize_query st1 = Arrow (S (S (next_stamp st))) QueryPatch.
Proof.
  intros Hrun. pose proof (run_keeps_query_slot host x p (installed st)) as H.
  rewrite Hrun in H. simpl in H. rewrite H. apply installed_query_slot.
Qed.

(** What [up] returns, by the rounds of its loop. *)
Lemma up_returned_rounds cb (st st1 : State) pending rs st' :
  run host x (umzug_pending host (new_Umzug host x)) (installed st)
    = (Returned pending, st1) ->
  up host x cb st = (Returned rs, st') ->
  exists captured st_end,
    Rounds host x pending (found x pending st1) captured st_end
    /\ map fixed_fields rs = map captured_entry captured
    /\ (never_writes cb -> map sql rs = map snd captured)
    /\ capturedQueries st' = capturedQueries st_end
    /\ (verbose x = true ->
        logged st'
        = match pending with
          | [] => Js.push (logged st1) "✓ No pending migrations"
          | _ :: _ =>
              Js.push (logged st_end)
                (Js.LF ++ "✓ Dry run completed — NO database changes made")
          end).
Proof.
  intros Hrun H.
  rewrite (up_after_discovery host x cb st st1 pending Hrun) in H.
  destruct pending as [|m pending].
  - simpl in H. exists [], (found x [] st1).
    unfold bind, when, log, modify, ret in H.
    split; [constructor|].
    destruct (verbose x) eqn:Hv; inversion H; subst; simpl;
      repeat split; try reflexivity; try (intros; reflexivity);
      try (now rewrite found_buffer); discriminate.
  - change (Nat.eqb (List.length (m :: pending)) 0) with false in H. cbv iota in H.
    unfold bind at 1 in H.
    destruct (up_loop host x cb (m :: pending) [] [] (found x (m :: pending) st1))
      as [[rs1|e] st3] eqn:Hloop; [|discriminate].
    apply up_loop_rounds in Hloop as [captured [HR [Hff Hsql]]].
    exists captured, st3. split; [exact HR|].
    unfold bind, when, log, modify, ret in H.
    destruct (verbose x) eqn:Hv; inversion H; subst; simpl;
      repeat split; try exact Hff; try (intros Hnw; now apply Hsql);
      try reflexivity; discriminate.
Qed.

Lemma fields_consistent (rs : list MigrationResult) :
  forall captured,
    map fixed_fields rs = map captured_entry captured ->
    map sql rs = map snd captured ->
    Forall (fun r => output r
                     = formatQueries (name r) (direction_text (direction r)) (sql r))
           rs.
Proof.
  induction rs as [|r rs IH]; intros [|c captured] Hf Hs; try discriminate;
    constructor.
  - inversion Hf as [[Hn Hd Ho]]. inversion Hs as [[Hq]].
    rewrite Ho, Hn, Hd, Hq. reflexivity.
  - inversion Hf. inversion Hs. eapply IH; eauto.
Qed.

Lemma round_end_logged statement output (st2 : State) :
  verbose x = true ->
  logged (round_end x statement output st2) = Js.push (logged st2) output.
Proof. intros Hv. unfold round_end. now rewrite Hv. Qed.

Lemma rounds_logged pending (st st' : State) captured :
  verbose x = true ->
  Rounds host x pending st captured st' ->
  logged st'
  = (logged st ++ map (fun c => formatQueries (fst c) "up" (snd c)) captured)%list.
Proof.
  intros Hv.
  induction 1 as [st|m rest st st2 st' md produced captured Hreq Hrun Hb HR IH].
  - simpl. now rewrite app_nil_r.
  - rewrite IH, round_end_logged by exact Hv.
    pose proof (keeps_run host x logged (fun _ _ => eq_refl) (fun _ _ => eq_refl)
                  (mod_up md) st) as Hk.
    rewrite Hrun in Hk. simpl in Hk. rewrite Hk. unfold Js.push. simpl.
    now rewrite <- app_assoc.
Qed.

Lemma captured_entries_outputs (rs : list MigrationResult) captured :
  map fixed_fields rs = map captured_entry captured ->
  map output rs = map (fun c => formatQueries (fst c) "up" (snd c)) captured.
Proof.
  revert captured.
  induction rs as [|r rs IH]; intros [|c captured] Hf; try discriminate;
    [reflexivity|].
  inversion Hf as [[Hn Hd Ho Hrest]]. simpl. f_equal; [congruence | now apply IH].
Qed.


End Returned.

(* ================================================================== *)
(** * The claims *)

Section Claims.

Context {DB DbResult Exn QueryObject : Type}.
Variable host : @Host DB DbResult Exn QueryObject.
Variable x : Executor.

(** ** C1: a captured statement *)

(** C1, amended: for a string statement that is not passed through, the
    patched entry point appends the text to the buffer; then, when the call's
    query type is SELECT, it hands the call to the original query function
    and answers with what that gives, and otherwise it leaves the database
    alone and answers with the empty-effect pair for INSERT, UPDATE and
    DELETE and with the empty result set for every remaining type. *)
Theorem patched_query_on_captured (sql : string) (options : QueryOptions)
    (st : @State DB) :
  shouldPassThrough (tableName x) sql = false ->
  let call := patched_query host x (PStr sql) options st in
  capturedQueries (snd call) = (capturedQueries st ++ [sql])%list
  /\ (if type_is options (SELECT (QueryTypes host))
      then (fst call, db (snd call))
           = (match fst (real_query host (PStr sql) options (db st)) with
              | Returned r => Returned (FromDatabase r)
              | Threw e => Threw e
              end,
              snd (real_query host (PStr sql) options (db st)))
      else db (snd call) = db st
           /\ fst call
              = Returned
                  (if existsb (type_is options)
                        [INSERT (QueryTypes host); UPDATE (QueryTypes host);
                         DELETE (QueryTypes host)]
                   then EmptyEffect else EmptyResultSet)).
Proof.
  intros Hcap call. subst call. unfold patched_query. rewrite Hcap.
  unfold bind, modify.
  destruct (type_is options (SELECT (QueryTypes host))).
  - unfold originals_query. cbn [db set_captured].
    destruct (real_query host (PStr sql) options (db st)) as [[r|e] d];
      split; reflexivity.
  - destruct (existsb _ _); repeat split.
Qed.

(** ** C8: a payload that is not a string *)

(** C8: a payload that is not a string goes to the original query function
    as it is: the answer and the database are the real query's, the buffer
    is untouched, and the tracking-table name plays no part. *)
Theorem non_string_payload_passes (obj : QueryObject) (options : QueryOptions)
    (st : @State DB) :
  let call := patched_query host x (PObj obj) options st in
  call = originals_query host (PObj obj) options st
  /\ capturedQueries (snd call) = capturedQueries st
  /\ db (snd call) = snd (real_query host (PObj obj) options (db st))
  /\ forall x', patched_query host x' (PObj obj) options st = call.
Proof.
  cbv zeta. unfold patched_query, originals_query.
  destruct (real_query host (PObj obj) options (db st)) as [[r|e] d];
    repeat split.
Qed.

(** ** C7: nothing to do *)

(** C7: when the runner reports no pending migration [up] returns the empty
    array, and when it reports no executed migration [down] returns null. *)
Theorem nothing_to_do cb (st st1 : @State DB) :
  (run host x (umzug_pending host (new_Umzug host x)) (installed st)
     = (Returned [], st1) ->
   fst (up host x cb st) = Returned [])
  /\ (run host x (umzug_executed host (new_Umzug host x)) (installed st)
        = (Returned [], st1) ->
      fst (down host x cb st) = Returned None).
Proof.
  split; intros H.
  - eapply up_nothing_pending; eauto.
  - eapply down_nothing_executed; eauto.
Qed.

(** ** C5: [down] handles the last executed migration *)


(** ** C6: the buffer between runs *)

(** C6, amended: the buffer belongs to the executor, is created once with it
    and is only ever appended to.  What earlier runs left in it is still in
    front of it after [up] and after [down]; a run ends the same way and
    returns the same entries whatever the buffer held at its start, because
    each entry is sliced from the length the buffer had when its migration
    began. *)
Theorem buffer_kept_across_runs cb (b : list string) (st : @State DB) :
  (up host x cb (shift b st)
     = let (c, st') := up host x cb st in (c, shift b st'))
  /\ (down host x cb (shift b st)
        = let (c, st') := down host x cb st in (c, shift b st'))
  /\ extends st (snd (up host x cb st))
  /\ extends st (snd (down host x cb st)).
Proof.
  split; [apply shifts_up|]. split; [apply shifts_down|]. split.
  - rewrite <- (shift_of_emptied st) at 2. rewrite shifts_up.
    destruct (up host x cb (set_captured [] st)) as [c st'].
    exists (capturedQueries st'). reflexivity.
  - rewrite <- (shift_of_emptied st) at 2. rewrite shifts_down.
    destruct (down host x cb (set_captured [] st)) as [c st'].
    exists (capturedQueries st'). reflexivity.
Qed.

(** ** C10: the rendered output of an entry *)

(** C10, amended: when no callback is given, or the callback writes to
    none of the arrays it is handed, in every entry returned by [up] or
    [down] the [output] field is [formatQueries] applied to the entry's own
    [name], [direction] and [sql]. *)
Theorem output_is_formatted_fields cb (st : @State DB) :
  never_writes cb ->
  (forall rs st',
      up host x cb st = (Returned rs, st') ->
      Forall (fun r => output r
                       = formatQueries (name r) (direction_text (direction r)) (sql r))
             rs)
  /\ (forall r st',
         down host x cb st = (Returned (Some r), st') ->
         output r = formatQueries (name r) (direction_text (direction r)) (sql r)).
Proof.
  intros Hnw. split.
  - intros rs st' H.
    destruct (run host x (umzug_pending host (new_Umzug host x)) (installed st))
      as [[pending|e] st1] eqn:Hrun.
    + destruct (up_returned_rounds host x cb st st1 pending rs st' Hrun H)
        as [captured [st_end [_ [Hff [Hsql _]]]]].
      eapply fields_consistent; eauto.
    + exfalso. unfold up, try_finally, bind at 1 2 3, modify in H.
      unfold installed in Hrun. rewrite Hrun in H. discriminate.
  - intros r st' H.
    destruct (run host x (umzug_executed host (new_Umzug host x)) (installed st))
      as [[executed|e] st1] eqn:Hrun.
    + destruct executed as [|m executed].
      * pose proof (down_nothing_executed host x cb st st1 Hrun) as Hn.
        rewrite H in Hn. discriminate.
      * assert (Hne : m :: executed <> []) by discriminate.
        pose proof (down_after_discovery host x cb st st1 (m :: executed) Hrun Hne)
          as E.
        cbv zeta in E. rewrite E in H. clear E.
        destruct (require host _) as [md|e]; [|discriminate].
        destruct (run host x (mod_down md) _) as [[[]|e] st2]; [|discriminate].
        destruct cb as [f|].
        -- match type of H with
           | context [f ?c] =>
               pose proof (Hnw f c eq_refl) as Hsame;
               destruct (f c) as [[[]|e] arrays]; [|discriminate]
           end.
           simpl in Hsame. subst arrays. simpl in H. inversion H. reflexivity.
        -- inversion H. reflexivity.
    + exfalso. unfold down, try_finally, bind at 1 2 3, modify in H.
      unfold installed in Hrun. rewrite Hrun in H. discriminate.
Qed.

End Claims.

(** ** C4: [up] ends every migration's statements with the insert-record statement *)



(** ** C3: what the slots hold after a run *)

(** C3 at the first run of a new executor.  [createDryRun] keeps the two
    storage hooks as they are but keeps the query function as a new bound
    function; [restore] writes these back.  After [up], whether it returns or
    a migration throws, the hooks are the objects they were before the run
    and the thrown value is the migration's own, but [sequelize.query] holds
    the bound function, not the object it held before the run. *)
Theorem first_up_leaves_bound_query :
  createDryRun Demo.options Demo.st0 = Ready Demo.x Demo.st1
  /\ (let before := Demo.st1 in
      let run := up (Demo.host ["0001-create-users"] []) Demo.x None before in
      (exists rs, fst run = Returned rs)
      /\ logMigration (snd run) = logMigration before
      /\ unlogMigration (snd run) = unlogMigration before
      /\ sequelize_query before = Ext 0
      /\ sequelize_query (snd run) = Bound 0 (Ext 0)
      /\ sequelize_query (snd run) <> sequelize_query before)
  /\ (let before := Demo.st1 in
      let run := up (Demo.host ["0002-broken"] []) Demo.x None before in
      fst run = Threw "boom"
      /\ logMigration (snd run) = logMigration before
      /\ unlogMigration (snd run) = unlogMigration before
      /\ sequelize_query (snd run) = Bound 0 (Ext 0)
      /\ sequelize_query (snd run) <> sequelize_query before).
Proof.
  split; [reflexivity|]. split; cbv zeta.
  - split; [eexists; reflexivity|]. repeat split; try reflexivity. discriminate.
  - repeat split; try reflexivity. discriminate.
Qed.

(** ** Concrete runs *)

(** C1, as the specification states it, fails: a read written with a common
    table expression and sent with the SELECT type is captured, and yet it is
    executed on the real database and answered from it. *)
Lemma captured_select_reaches_database :
  let st := installed Demo.st1 in
  let call :=
    patched_query (Demo.host [] []) Demo.x (PStr Demo.CTE_READ)
                  (mkQueryOptions (Some "SELECT")) st in
  shouldPassThrough (tableName Demo.x) Demo.CTE_READ = false
  /\ capturedQueries (snd call) = [Demo.CTE_READ]
  /\ fst call = Returned (FromDatabase 0)
  /\ fst call <> Returned EmptyResultSet
  /\ db st = []
  /\ db (snd call) = [Demo.CTE_READ].
Proof. cbv zeta. repeat split; try reflexivity. discriminate. Qed.

(** A CREATE TABLE sent without a type is captured. *)
Lemma patched_query_on_captured_witness :
  shouldPassThrough (tableName Demo.x) Demo.CREATE_USERS = false
  /\ capturedQueries
       (snd (patched_query (Demo.host [] []) Demo.x (PStr Demo.CREATE_USERS)
                           Demo.raw (installed Demo.st1)))
     = [Demo.CREATE_USERS].
Proof.
  split; [reflexivity|].
  exact (proj1 (patched_query_on_captured (Demo.host [] []) Demo.x
                  Demo.CREATE_USERS Demo.raw (installed Demo.st1) eq_refl)).
Defined.

(** C6, as the specification states it, fails: after [up] the buffer still
    holds the two statements of that run, and a following [down] on the same
    executor starts from them and adds its own behind them. *)
Lemma buffer_not_reset_between_runs :
  let host := Demo.host ["0001-create-users"] ["0001-create-users"] in
  let next_start := snd (up host Demo.x None Demo.st1) in
  capturedQueries next_start
    = [Demo.CREATE_USERS; insert_record "SequelizeMeta" "0001-create-users"]
  /\ capturedQueries (snd (down host Demo.x None next_start))
     = [Demo.CREATE_USERS; insert_record "SequelizeMeta" "0001-create-users";
        Demo.DROP_USERS; delete_record "SequelizeMeta" "0001-create-users"].
Proof. split; reflexivity. Qed.

(** A runner that reports nothing, in either direction. *)
Lemma nothing_to_do_witness :
  fst (up (Demo.host [] []) Demo.x None Demo.st1) = Returned []
  /\ fst (down (Demo.host [] []) Demo.x None Demo.st1) = Returned None.
Proof.
  pose (after :=
    snd (run (Demo.host [] []) Demo.x
           (umzug_pending (Demo.host [] []) (new_Umzug (Demo.host [] []) Demo.x))
           (installed Demo.st1))).
  split.
  - exact (proj1 (nothing_to_do (Demo.host [] []) Demo.x None Demo.st1 after) eq_refl).
  - exact (proj2 (nothing_to_do (Demo.host [] []) Demo.x None Demo.st1 after) eq_refl).
Defined.


(** C10, as the specification states it, fails: the array handed to the
    callback is the entry's [sql], so after the callback
    [(name, queries) => { queries.pop(); }] the entry [up] returns has lost
    its final statement while its [output] still renders both. *)
Lemma writing_callback_breaks_output :
  exists r st',
    up (Demo.host ["0001-create-users"] []) Demo.x (Some Demo.popper) Demo.st1
      = (Returned [r], st')
    /\ sql r = [Demo.CREATE_USERS]
    /\ output r
       = formatQueries "0001-create-users" "up"
           [Demo.CREATE_USERS; insert_record "SequelizeMeta" "0001-create-users"]
    /\ output r <> formatQueries (name r) (direction_text (direction r)) (sql r).
Proof.
  eexists. eexists. split; [reflexivity|]. split; [reflexivity|].
  split; [reflexivity|]. apply String.eqb_neq. reflexivity.
Qed.

(** The entries of two runs from the state an earlier run left, watched by
    a callback that reads only. *)
Lemma output_is_formatted_fields_witness :
  Forall (fun r => output r
                   = formatQueries (name r) (direction_text (direction r)) (sql r))
    [up_entry Demo.x "0001-create-users" [Demo.CREATE_USERS];
     up_entry Demo.x "0003-add-email" [Demo.ADD_EMAIL]]
  /\ (let r := down_entry Demo.x "0003-add-email" [Demo.DROP_EMAIL] in
      output r = formatQueries (name r) (direction_text (direction r)) (sql r)).
Proof.
  pose (host := Demo.host ["0001-create-users"; "0003-add-email"]
                          ["0001-create-users"; "0003-add-email"]).
  assert (Hnw : never_writes (Some Demo.reader)).
  { intros f calls H. injection H as <-. reflexivity. }
  split.
  - exact (proj1 (output_is_formatted_fields host Demo.x (Some Demo.reader)
                    Demo.used Hnw)
                 _ _ eq_refl).
  - exact (proj2 (output_is_formatted_fields host Demo.x (Some Demo.reader)
                    Demo.used Hnw)
                 _ _ eq_refl).
Defined.
Lemma lower_of_upper_ascii (c : ascii) :
  Js.lower_ascii (Js.upper_ascii c) = Js.lower_ascii c.
Proof.
  destruct c as [[] [] [] [] [] [] [] []]; reflexivity.
Qed.

Lemma toLowerCase_of_toUpperCase (s : string) :
  Js.toLowerCase (Js.toUpperCase s) = Js.toLowerCase s.
Proof.
  induction s as [|c s IH]; [reflexivity|].
  unfold Js.toLowerCase, Js.toUpperCase in *. simpl.
  now rewrite lower_of_upper_ascii, IH.
Qed.

Lemma string_append_assoc (a b c : string) : (a ++ b) ++ c = a ++ (b ++ c).
Proof. induction a as [|ch a IH]; simpl; [reflexivity | now rewrite IH]. Qed.

(** ** The classifier, further *)

(** The classifier does not look at the tracking-table name: its first
    alternative, a select naming the table, is covered by the pattern, so a
    statement is passed through exactly when the pattern matches it. *)
Theorem classifier_ignores_table_name (tableName sql : string) :
  shouldPassThrough tableName sql = METADATA_QUERIES_test sql
  /\ forall other, shouldPassThrough other sql = shouldPassThrough tableName sql.
Proof.
  assert (E : forall t, shouldPassThrough t sql = METADATA_QUERIES_test sql).
  { intros t. unfold shouldPassThrough, METADATA_QUERIES_test.
    rewrite toLowerCase_idempotent.
    destruct (Js.startsWith (Js.toLowerCase sql) "select") eqn:Hsel;
      [|reflexivity].
    simpl. rewrite Hsel. now rewrite !orb_true_r. }
  split; [apply E | intros other; now rewrite !E].
Qed.

(** The classifier is blind to letter case: an ASCII statement, its
    upper-case form and its lower-case form are classified alike.  (Outside
    ASCII the case mappings of JavaScript are not the ones modelled here.) *)
Theorem classifier_ignores_case (tableName sql : string) :
  ascii_only sql = true ->
  shouldPassThrough tableName (Js.toUpperCase sql) = shouldPassThrough tableName sql
  /\ shouldPassThrough tableName (Js.toLowerCase sql) = shouldPassThrough tableName sql.
Proof.
  intros _. unfold shouldPassThrough.
  now rewrite toLowerCase_of_toUpperCase, toLowerCase_idempotent.
Qed.

Lemma classifier_ignores_case_witness :
  shouldPassThrough "SequelizeMeta" (Js.toUpperCase "Show Tables")
    = shouldPassThrough "SequelizeMeta" "Show Tables"
  /\ shouldPassThrough "SequelizeMeta" (Js.toLowerCase "Show Tables")
     = shouldPassThrough "SequelizeMeta" "Show Tables".
Proof.
  exact (classifier_ignores_case "SequelizeMeta" "Show Tables" eq_refl).
Defined.

(** ** The formatter, further *)

(** The transcript does not mark where a statement ends: one statement whose
    text holds a blank line followed by [2. ] renders exactly as two
    statements do, so the rendered string does not determine the list. *)
Theorem transcript_is_ambiguous (name direction a b : string) :
  formatQueries name direction [a ++ Js.LF ++ Js.LF ++ "2. " ++ b]
  = formatQueries name direction [a; b]
  /\ [a ++ Js.LF ++ Js.LF ++ "2. " ++ b] <> [a; b].
Proof.
  split; [|discriminate].
  assert (E : numbered_entry 0 (a ++ Js.LF ++ Js.LF ++ "2. " ++ b)
              = numbered_entry 0 a ++ Js.LF ++ numbered_entry 1 b).
  { unfold numbered_entry.
    change (Js.of_nat (0 + 1)) with "1". change (Js.of_nat (1 + 1)) with "2".
    rewrite !string_append_assoc. reflexivity. }
  unfold formatQueries, formatLines, Js.join, Js.push.
  cbn [List.length Nat.eqb forEach_push app String.concat].
  now rewrite E.
Qed.

(** ** The executor and its runs, further *)

Section Extras.

Context {DB DbResult Exn QueryObject : Type}.
Variable host : @Host DB DbResult Exn QueryObject.
Variable x : Executor.

(** Whatever the state a run starts from and however it ends, [up] and
    [down] leave the three slots holding the objects of the executor's
    [originals]. *)
Theorem every_exit_restores_snapshot cb (st : @State DB) :
  slots (snd (up host x cb st))
    = (orig_query (originals x), orig_logMigration (originals x),
       orig_unlogMigration (originals x))
  /\ slots (snd (down host x cb st))
     = (orig_query (originals x), orig_logMigration (originals x),
        orig_unlogMigration (originals x)).
Proof.
  split.
  - destruct (up_ends_restored host x cb st) as [st1 ->]. reflexivity.
  - destruct (down_ends_restored host x cb st) as [st1 ->]. reflexivity.
Qed.

(** From the second run of an executor on, a run gives the three slots back
    as it found them: after any run, a further [up] or [down] ends with the
    very objects the slots held when it began. *)
Theorem later_runs_keep_identities cb cb' (st : @State DB) :
  let after_up := snd (up host x cb st) in
  let after_down := snd (down host x cb st) in
  slots (snd (up host x cb' after_up)) = slots after_up
  /\ slots (snd (down host x cb' after_up)) = slots after_up
  /\ slots (snd (up host x cb' after_down)) = slots after_down
  /\ slots (snd (down host x cb' after_down)) = slots after_down.
Proof.
  cbv zeta.
  destruct (up_ends_restored host x cb st) as [s1 ->].
  destruct (down_ends_restored host x cb st) as [s2 ->].
  destruct (up_ends_restored host x cb' (restore x s1)) as [s3 ->].
  destruct (down_ends_restored host x cb' (restore x s1)) as [s4 ->].
  destruct (up_ends_restored host x cb' (restore x s2)) as [s5 ->].
  destruct (down_ends_restored host x cb' (restore x s2)) as [s6 ->].
  repeat split.
Qed.

(** A statement whose lower-case form begins with pragma, show, describe or
    select, or contains information_schema, is handed by the patch to the
    original query function whatever its query type, and is not captured. *)
Theorem matching_statements_run_for_real (sql : string) (options : QueryOptions)
    (st : @State DB) :
  (exists k rest, In k leading_keywords /\ Js.toLowerCase sql = k ++ rest)
  \/ (exists a b, Js.toLowerCase sql = a ++ "information_schema" ++ b) ->
  patched_query host x (PStr sql) options st
    = originals_query host (PStr sql) options st
  /\ capturedQueries (snd (patched_query host x (PStr sql) options st))
     = capturedQueries st.
Proof.
  intros H.
  assert (Hp : shouldPassThrough (tableName x) sql = true).
  { unfold shouldPassThrough, METADATA_QUERIES_test.
    rewrite toLowerCase_idempotent.
    apply orb_true_iff. right. apply orb_true_iff.
    destruct H as [H | H]; [left | right].
    - now apply startsWith_keyword_iff.
    - now apply includes_iff_infix. }
  unfold patched_query. rewrite Hp. split; [reflexivity|].
  apply originals_query_frame.
Qed.

(** Outside code whose calls are all strings that are captured and sent with
    a type other than SELECT changes, under the patch, nothing but the
    buffer, which gains the texts of those calls in the order they were
    made; the database is as it was. *)
Theorem suppressed_run_only_captures {A} (p : @Prog DbResult Exn QueryObject A)
    (st : @State DB) (n : nat) :
  only_suppressed host x p = true ->
  sequelize_query st = Arrow n QueryPatch ->
  snd (run host x p st) = set_captured (capturedQueries st ++ issued host p) st
  /\ db (snd (run host x p st)) = db st.
Proof.
  intros Hs Hslot. rewrite (run_only_suppressed host x p Hs st n Hslot).
  split; reflexivity.
Qed.

(** A run whose migrations make suppressed calls only sends nothing to the
    database once the runner has answered: after [up] the database is the one
    the discovery left. *)
Theorem up_leaves_database cb (st st1 : @State DB) (pending : list string) :
  run host x (umzug_pending host (new_Umzug host x)) (installed st)
    = (Returned pending, st1) ->
  (forall m md, In m pending ->
                require host (migrationPath host x m) = Returned md ->
                only_suppressed host x (mod_up md) = true) ->
  db (snd (up host x cb st)) = db st1.
Proof.
  intros Hrun Hsup.
  pose proof (discovery_query_slot host x _ _ _ _ Hrun) as Hslot.
  rewrite (up_after_discovery host x cb st st1 pending Hrun).
  destruct (Nat.eqb (List.length pending) 0).
  - unfold bind, when, log, modify, ret. destruct (verbose x); reflexivity.
  - unfold bind at 1.
    rewrite <- (found_query_slot x pending st1) in Hslot.
    pose proof (up_loop_keeps_db host x cb pending [] [] (found x pending st1)
                  (S (S (next_stamp st))) Hslot Hsup) as Hloop.
    rewrite found_db in Hloop.
    destruct (up_loop host x cb pending [] [] (found x pending st1))
      as [[rs|e] st3]; simpl in Hloop.
    + unfold bind, when, log, modify, ret.
      destruct (verbose x); simpl; congruence.
    + simpl. congruence.
Qed.

End Extras.

Section Outcomes.

Context {DB DbResult Exn QueryObject : Type}.
Variable host : @Host DB DbResult Exn QueryObject.
Variable x : Executor.

(** When the callback writes to none of the arrays it is handed, the entries
    [up] returns share out what the loop added to the buffer: read one after
    the other, their statement lists are exactly what the buffer gained after
    the runner had answered, nothing lost and nothing twice.  What was
    captured while the runner worked is in the buffer but in no entry. *)
Theorem up_entries_partition_buffer cb (st st1 st' : @State DB)
    (pending : list string) (rs : list MigrationResult) :
  never_writes cb ->
  run host x (umzug_pending host (new_Umzug host x)) (installed st)
    = (Returned pending, st1) ->
  up host x cb st = (Returned rs, st') ->
  capturedQueries st'
    = (capturedQueries st1 ++ List.concat (map sql rs))%list
  /\ exists during_discovery,
       capturedQueries st1 = (capturedQueries st ++ during_discovery)%list.
Proof.
  intros Hnw Hrun H. split.
  - destruct (up_returned_rounds host x cb st st1 pending rs st' Hrun H)
      as [captured [st_end [HR [_ [Hsql [Hb _]]]]]].
    rewrite Hb, (rounds_buffer host x _ _ _ _ HR), found_buffer, (Hsql Hnw).
    reflexivity.
  - pose proof (run_extends host x (umzug_pending host (new_Umzug host x))
                  (installed st)) as [delta Hd].
    rewrite Hrun in Hd. exists delta. exact Hd.
Qed.

(** An executor that is not verbose, so that the logger is never called,
    throws from [up] nothing of its own: a value [up] throws was thrown by
    the runner's discovery, by [require] for a pending migration, by that
    migration's [up] procedure, or by the callback. *)
Theorem up_throws_only_what_was_thrown cb (st : @State DB) (e : Exn) :
  verbose x = false ->
  fst (up host x cb st) = Threw e ->
  fst (run host x (umzug_pending host (new_Umzug host x)) (installed st)) = Threw e
  \/ exists pending st1 m,
       run host x (umzug_pending host (new_Umzug host x)) (installed st)
         = (Returned pending, st1)
       /\ In m pending
       /\ (require host (migrationPath host x m) = Threw e
           \/ (exists md st_m,
                  require host (migrationPath host x m) = Returned md
                  /\ fst (run host x (mod_up md) st_m) = Threw e)
           \/ (exists f calls, cb = Some f /\ fst (f calls) = Threw e)).
Proof.
  intros _ H.
  destruct (run host x (umzug_pending host (new_Umzug host x)) (installed st))
    as [[pending|e0] st1] eqn:Hrun.
  - right. exists pending, st1.
    rewrite (up_after_discovery host x cb st st1 pending Hrun) in H.
    destruct (Nat.eqb (List.length pending) 0).
    + exfalso. unfold bind, when, log, modify, ret in H.
      destruct (verbose x); discriminate.
    + unfold bind at 1 in H.
      destruct (up_loop host x cb pending [] [] (found x pending st1))
        as [[rs1|e1] st3] eqn:Hloop.
      * exfalso. unfold bind, when, log, modify, ret in H.
        destruct (verbose x); discriminate.
      * simpl in H. inversion H; subst e1.
        apply up_loop_threw in Hloop as [m [Hin Hwhy]].
        exists m. split; [reflexivity|]. split; assumption.
  - left. unfold up, try_finally, bind at 1 2 3, modify in H.
    unfold installed in Hrun. rewrite Hrun in H. simpl in *.
    inversion H. reflexivity.
Qed.

(** When the runner's discovery throws, [up] and [down] throw the same
    value, nothing is loaded or captured after it, and the slots are put
    back. *)
Theorem discovery_errors_propagate cb (st st1 : @State DB) (e : Exn) :
  (run host x (umzug_pending host (new_Umzug host x)) (installed st)
     = (Threw e, st1) ->
   up host x cb st = (Threw e, restore x st1))
  /\ (run host x (umzug_executed host (new_Umzug host x)) (installed st)
        = (Threw e, st1) ->
      down host x cb st = (Threw e, restore x st1)).
Proof.
  split; intros H; unfold installed in H.
  - unfold up, try_finally, bind at 1 2 3, modify. now rewrite H.
  - unfold down, try_finally, bind at 1 2 3, modify. now rewrite H.
Qed.

(** For an executor that is not verbose, so that the logger is never called,
    and a non-empty executed sequence, [down] throws [e] exactly when
    [require] for the last migration throws [e], or its [down] procedure
    does, or the procedure returns and the callback, called with the
    migration's name and statements, throws [e]. *)
Theorem down_throws_iff cb (st st1 : @State DB) (executed : list string)
    (e : Exn) :
  verbose x = false ->
  run host x (umzug_executed host (new_Umzug host x)) (installed st)
    = (Returned executed, st1) ->
  executed <> [] ->
  let lastMigration := last executed EmptyString in
  fst (down host x cb st) = Threw e
  <-> (require host (migrationPath host x lastMigration) = Threw e
       \/ exists md,
            require host (migrationPath host x lastMigration) = Returned md
            /\ (fst (run host x (mod_down md) (announced x lastMigration st1))
                  = Threw e
                \/ exists st2 f,
                     run host x (mod_down md) (announced x lastMigration st1)
                       = (Returned tt, st2)
                     /\ cb = Some f
                     /\ fst (f [(lastMigration,
                                 (skipn (List.length (capturedQueries st1))
                                        (capturedQueries st2)
                                    ++ [delete_record (tableName x) lastMigration])%list)])
                        = Threw e)).
Proof.
  intros _ Hrun Hne lastMigration.
  rewrite (down_after_discovery host x cb st st1 executed Hrun Hne). cbv zeta.
  fold lastMigration.
  destruct (require host (migrationPath host x lastMigration)) as [md|e0] eqn:Hreq.
  - destruct (run host x (mod_down md) (announced x lastMigration st1))
      as [[[]|e0] st2] eqn:Hd.
    + split.
      * intros H. right. exists md. split; [reflexivity|]. right.
        destruct cb as [f|]; [|discriminate].
        exists st2, f. split; [first [exact Hd | reflexivity]|].
        split; [reflexivity|].
        match type of H with
        | context [f ?c] => destruct (f c) as [[[]|e1] arrays]
        end.
        -- discriminate.
        -- simpl in H. simpl. congruence.
      * intros [H | [md' [Hmd [H | [st2' [f [Hst [-> Hf]]]]]]]];
          try discriminate.
        -- inversion Hmd; subst md'. rewrite ?Hd in H. discriminate.
        -- inversion Hmd; subst md'. rewrite ?Hd in Hst.
           inversion Hst; subst st2'.
           match goal with
           | |- context [f ?c] => destruct (f c) as [[[]|e1] arrays]
           end; simpl in Hf; [discriminate|]. simpl. congruence.
    + simpl. split.
      * intros H. right. exists md. split; [reflexivity|]. left.
        rewrite ?Hd. simpl. congruence.
      * intros [H | [md' [Hmd [H | [st2' [f [Hst _]]]]]]];
          try discriminate; inversion Hmd; subst md'.
        -- rewrite ?Hd in H. simpl in H. congruence.
        -- rewrite ?Hd in Hst. discriminate.
  - simpl. split.
    + intros H. left. congruence.
    + intros [H | [md' [Hmd _]]]; [congruence | discriminate].
Qed.

End Outcomes.

Section AfterRuns.

Context {DB DbResult Exn QueryObject : Type}.
Variable host : @Host DB DbResult Exn QueryObject.
Variable x : Executor.

(** An executor that is not verbose writes nothing to the logger, in [up]
    and in [down], however the run ends. *)
Theorem quiet_unless_verbose cb (st : @State DB) :
  verbose x = false ->
  logged (snd (up host x cb st)) = logged st
  /\ logged (snd (down host x cb st)) = logged st.
Proof.
  intros Hq. split.
  - apply (keeps_up host x logged); try reflexivity. rewrite Hq. discriminate.
  - apply (keeps_down host x logged); try reflexivity. rewrite Hq. discriminate.
Qed.


(** For an executor that is not verbose, so that the logger is never called:
    when the last executed migration's [down] procedure makes suppressed
    calls only and returns, and the callback returns without writing to the
    array it is handed, the entry [down] returns lists exactly the texts of
    those calls, in order, followed by the delete-record statement, and the
    database is the one the discovery left. *)
Theorem down_lists_issued_statements cb (st st1 : @State DB)
    (executed : list string) (md : MigrationModule) (st2 : @State DB) :
  verbose x = false ->
  run host x (umzug_executed host (new_Umzug host x)) (installed st)
    = (Returned executed, st1) ->
  executed <> [] ->
  let lastMigration := last executed EmptyString in
  require host (migrationPath host x lastMigration) = Returned md ->
  only_suppressed host x (mod_down md) = true ->
  run host x (mod_down md) (announced x lastMigration st1) = (Returned tt, st2) ->
  only_observes cb ->
  let queries :=
    (issued host (mod_down md) ++ [delete_record (tableName x) lastMigration])%list in
  fst (down host x cb st)
    = Returned (Some (mkResult lastMigration Down queries
                        (formatQueries lastMigration "down" queries)))
  /\ db (snd (down host x cb st)) = db st1.
Proof.
  intros Hq Hrun Hne lastMigration Hreq Hsup Hdown Hcb queries.
  assert (Hslot : sequelize_query (announced x lastMigration st1)
                  = Arrow (S (S (next_stamp st))) QueryPatch).
  { pose proof (discovery_query_slot host x _ _ _ _ Hrun) as H.
    unfold announced. destruct (verbose x); simpl; exact H. }
  pose proof (run_only_suppressed host x (mod_down md) Hsup
                (announced x lastMigration st1) _ Hslot) as Hst2.
  rewrite Hdown in Hst2. simpl in Hst2.
  rewrite announced_buffer in Hst2.
  rewrite (down_after_discovery host x cb st st1 executed Hrun Hne). cbv zeta.
  fold lastMigration. rewrite Hreq, Hdown.
  assert (Hq' : (skipn (List.length (capturedQueries st1)) (capturedQueries st2)
                  ++ [delete_record (tableName x) lastMigration])%list = queries).
  { subst st2 queries. cbn [capturedQueries set_captured].
    now rewrite skipn_past_prefix. }
  rewrite Hq'.
  assert (Hdb : db st2 = db st1).
  { subst st2. unfold announced. destruct (verbose x); reflexivity. }
  unfold down_end, round_end. rewrite Hq.
  destruct cb as [f|].
  - rewrite (Hcb f _ eq_refl). split; simpl; congruence.
  - split; simpl; congruence.
Qed.

End AfterRuns.

(** ** Concrete runs for the properties above *)

(** A select is handed on, whatever its type. *)
Lemma matching_statements_run_for_real_witness :
  patched_query (Demo.host [] []) Demo.x (PStr "SELECT 1")
                (mkQueryOptions (Some "INSERT")) (installed Demo.st1)
  = originals_query (Demo.host [] []) (PStr "SELECT 1")
                    (mkQueryOptions (Some "INSERT")) (installed Demo.st1)
  /\ capturedQueries
       (snd (patched_query (Demo.host [] []) Demo.x (PStr "SELECT 1")
                           (mkQueryOptions (Some "INSERT")) (installed Demo.st1)))
     = [].
Proof.
  apply (matching_statements_run_for_real (Demo.host [] []) Demo.x "SELECT 1").
  left. exists "select", " 1". split; [simpl; tauto | reflexivity].
Defined.

(** The CREATE TABLE migration under the patch. *)
Lemma suppressed_run_only_captures_witness :
  snd (run (Demo.host [] []) Demo.x (mod_up Demo.create_users) (installed Demo.st1))
  = set_captured [Demo.CREATE_USERS] (installed Demo.st1)
  /\ db (snd (run (Demo.host [] []) Demo.x (mod_up Demo.create_users)
                  (installed Demo.st1))) = [].
Proof.
  exact (suppressed_run_only_captures (Demo.host [] []) Demo.x
           (mod_up Demo.create_users) (installed Demo.st1) 3 eq_refl eq_refl).
Defined.

(** The example run sends the database the runner's read and nothing more. *)
Lemma up_leaves_database_witness :
  db (snd (up (Demo.host ["0001-create-users"] []) Demo.x None Demo.st1))
  = ["SELECT `name` FROM `SequelizeMeta`;"].
Proof.
  pose (host := Demo.host ["0001-create-users"] []).
  pose (st1 := snd (run host Demo.x (umzug_pending host (new_Umzug host Demo.x))
                        (installed Demo.st1))).
  refine (up_leaves_database host Demo.x None Demo.st1 st1
            ["0001-create-users"] eq_refl _).
  intros m md [<- | []] Hreq. inversion Hreq. reflexivity.
Defined.

(** Two migrations run from the state an earlier run left, watched by a
    callback that reads only. *)
Lemma up_entries_partition_buffer_witness :
  let host := Demo.host ["0001-create-users"; "0003-add-email"] [] in
  capturedQueries (snd (up host Demo.x (Some Demo.reader) Demo.used))
  = (capturedQueries Demo.used
       ++ List.concat
            [[Demo.CREATE_USERS; insert_record "SequelizeMeta" "0001-create-users"];
             [Demo.ADD_EMAIL; insert_record "SequelizeMeta" "0003-add-email"]])%list
  /\ exists during_discovery,
       capturedQueries Demo.used
       = (capturedQueries Demo.used ++ during_discovery)%list.
Proof.
  pose (host := Demo.host ["0001-create-users"; "0003-add-email"] []).
  pose (st1 := snd (run host Demo.x (umzug_pending host (new_Umzug host Demo.x))
                        (installed Demo.used))).
  assert (Hnw : never_writes (Some Demo.reader)).
  { intros f calls H. injection H as <-. reflexivity. }
  exact (up_entries_partition_buffer host Demo.x (Some Demo.reader) Demo.used st1
           (snd (up host Demo.x (Some Demo.reader) Demo.used))
           ["0001-create-users"; "0003-add-email"]
           [up_entry Demo.x "0001-create-users" [Demo.CREATE_USERS];
            up_entry Demo.x "0003-add-email" [Demo.ADD_EMAIL]]
           Hnw eq_refl eq_refl).
Defined.

(** The value a callback throws comes out of [up]. *)
Lemma up_throws_only_what_was_thrown_witness :
  let host := Demo.host ["0001-create-users"] [] in
  fst (run host Demo.x (umzug_pending host (new_Umzug host Demo.x))
           (installed Demo.st1)) = Threw "stop"
  \/ exists pending st1 m,
       run host Demo.x (umzug_pending host (new_Umzug host Demo.x))
           (installed Demo.st1) = (Returned pending, st1)
       /\ In m pending
       /\ (require host (migrationPath host Demo.x m) = Threw "stop"
           \/ (exists md st_m,
                  require host (migrationPath host Demo.x m) = Returned md
                  /\ fst (run host Demo.x (mod_up md) st_m) = Threw "stop")
           \/ (exists (f : @Callback string) calls,
                  Some Demo.stopper = Some f /\ fst (f calls) = Threw "stop")).
Proof.
  exact (up_throws_only_what_was_thrown (Demo.host ["0001-create-users"] []) Demo.x
           (Some Demo.stopper) Demo.st1 "stop" eq_refl eq_refl).
Defined.

(** A runner that cannot reach its storage. *)
Lemma discovery_errors_propagate_witness :
  up Demo.offline Demo.x None Demo.st1
    = (Threw "connection refused", restore Demo.x (installed Demo.st1))
  /\ down Demo.offline Demo.x None Demo.st1
     = (Threw "connection refused", restore Demo.x (installed Demo.st1)).
Proof.
  split.
  - exact (proj1 (discovery_errors_propagate Demo.offline Demo.x None Demo.st1
                    (installed Demo.st1) "connection refused") eq_refl).
  - exact (proj2 (discovery_errors_propagate Demo.offline Demo.x None Demo.st1
                    (installed Demo.st1) "connection refused") eq_refl).
Defined.

(** Rolling back the broken migration throws its value. *)
Lemma down_throws_iff_witness :
  fst (down (Demo.host [] ["0001-create-users"; "0002-broken"]) Demo.x None Demo.st1)
  = Threw "boom".
Proof.
  pose (host := Demo.host [] ["0001-create-users"; "0002-broken"]).
  pose (st1 := snd (run host Demo.x (umzug_executed host (new_Umzug host Demo.x))
                        (installed Demo.st1))).
  assert (Hne : ["0001-create-users"; "0002-broken"] <> @nil string) by discriminate.
  apply (proj2 (down_throws_iff host Demo.x None Demo.st1 st1
                  ["0001-create-users"; "0002-broken"]
                  "boom" eq_refl eq_refl Hne)).
  right. exists Demo.broken. split; [reflexivity|]. left. reflexivity.
Defined.

Lemma quiet_unless_verbose_witness :
  let host := Demo.host ["0001-create-users"] ["0001-create-users"] in
  logged (snd (up host Demo.x None Demo.st1)) = []
  /\ logged (snd (down host Demo.x None Demo.st1)) = [].
Proof.
  exact (quiet_unless_verbose
           (Demo.host ["0001-create-users"] ["0001-create-users"])
           Demo.x None Demo.st1 eq_refl).
Defined.


(** Rolling back the later of two executed migrations, watched by a callback
    that reads only. *)
Lemma down_lists_issued_statements_witness :
  let host := Demo.host [] ["0001-create-users"; "0003-add-email"] in
  fst (down host Demo.x (Some Demo.reader) Demo.used)
    = Returned
        (Some (mkResult "0003-add-email" Down
                 [Demo.DROP_EMAIL; delete_record "SequelizeMeta" "0003-add-email"]
                 (formatQueries "0003-add-email" "down"
                    [Demo.DROP_EMAIL;
                     delete_record "SequelizeMeta" "0003-add-email"])))
  /\ db (snd (down host Demo.x (Some Demo.reader) Demo.used))
     = ["SELECT `name` FROM `SequelizeMeta`;"; "SELECT `name` FROM `SequelizeMeta`;"].
Proof.
  pose (host := Demo.host [] ["0001-create-users"; "0003-add-email"]).
  pose (st1 := snd (run host Demo.x (umzug_executed host (new_Umzug host Demo.x))
                        (installed Demo.used))).
  pose (st2 := snd (run host Demo.x (mod_down Demo.add_email)
                        (announced Demo.x "0003-add-email" st1))).
  assert (Hne : ["0001-create-users"; "0003-add-email"] <> @nil string)
    by discriminate.
  refine (down_lists_issued_statements host Demo.x (Some Demo.reader) Demo.used st1
            ["0001-create-users"; "0003-add-email"] Demo.add_email st2
            eq_refl eq_refl Hne eq_refl eq_refl eq_refl _).
  intros f calls H. injection H as <-. reflexivity.
Defined.

(** ** What a verbose run writes *)

Section Verbose.

Context {DB DbResult Exn QueryObject : Type}.
Variable host : @Host DB DbResult Exn QueryObject.
Variable x : Executor.

(** A verbose [up] that returns has written, after what the logger already
    held: the no-pending line when the runner reported nothing; otherwise the
    count line, one numbered line per pending migration, the rendered output
    of each returned entry in order, and the closing line. *)
Theorem verbose_up_log cb (st st1 st' : @State DB) (pending : list string)
    (rs : list MigrationResult) :
  verbose x = true ->
  run host x (umzug_pending host (new_Umzug host x)) (installed st)
    = (Returned pending, st1) ->
  up host x cb st = (Returned rs, st') ->
  let count_line :=
    "Found " ++ Js.of_nat (List.length pending) ++ " pending migration(s):" in
  let closing_line := Js.LF ++ "✓ Dry run completed — NO database changes made" in
  logged st'
  = (logged st
       ++ match pending with
          | [] => ["✓ No pending migrations"]
          | _ :: _ =>
              count_line :: listing 0 pending ++ map output rs ++ [closing_line]
          end)%list.
Proof.
  intros Hv Hrun H. cbv zeta.
  assert (Hl1 : logged st1 = logged st).
  { pose proof (keeps_run host x logged (fun _ _ => eq_refl) (fun _ _ => eq_refl)
                  (umzug_pending host (new_Umzug host x)) (installed st)) as Hk.
    rewrite Hrun in Hk. exact Hk. }
  destruct (up_returned_rounds host x cb st st1 pending rs st' Hrun H)
    as [captured [st_end [HR [Hff [_ [_ Hlog]]]]]].
  rewrite (Hlog Hv).
  destruct pending as [|m pending].
  - rewrite Hl1. reflexivity.
  - rewrite (rounds_logged host x _ _ _ _ Hv HR).
    rewrite (captured_entries_outputs rs captured Hff).
    unfold found. rewrite Hv. cbn [logged set_logged]. rewrite Hl1.
    unfold Js.push. rewrite <- !app_assoc. reflexivity.
Qed.

End Verbose.

(** The example run, made by the verbose executor. *)
Lemma verbose_up_log_witness :
  let host := Demo.host ["0001-create-users"] [] in
  logged (snd (up host Demo.loud None Demo.st1))
  = ["Found 1 pending migration(s):";
     "  1. 0001-create-users";
     formatQueries "0001-create-users" "up"
       [Demo.CREATE_USERS; insert_record "SequelizeMeta" "0001-create-users"];
     Js.LF ++ "✓ Dry run completed — NO database changes made"].
Proof.
  pose (host := Demo.host ["0001-create-users"] []).
  pose (st1 := snd (run host Demo.loud (umzug_pending host (new_Umzug host Demo.loud))
                        (installed Demo.st1))).
  exact (verbose_up_log host Demo.loud None Demo.st1 st1
           (snd (up host Demo.loud None Demo.st1)) ["0001-create-users"]
           [up_entry Demo.loud "0001-create-users" [Demo.CREATE_USERS]]
           eq_refl eq_refl eq_refl).
Defined.
